(** * KILIAI: the audio encoder and the recording pipeline

    A shallow embedding of [src/utils/audio.ts] ([encode], [createBlob]),
    of [src/components/TranscriptionCard.tsx] and of the [App] component
    (the handlers [stopRecording], [startRecording], [onopen],
    [onaudioprocess], [onmessage], [onerror], [handleToggleRecording],
    [fileToBase64], [handleFileUpload], and what a render shows), followed
    by the properties the specification states about them and by further
    properties read off the code.

    Conventions.
    - A JavaScript string is the list of its UTF-16 code units.
    - A [Uint8Array] is a [list byte]; an [Int16Array] is a list of integers
      kept in the signed 16-bit range; a [Float32Array] is a list of IEEE 754
      values ([spec_float]) that are valid in the binary32 format.
    - Functions of the platform (not of this repository) are modelled after
      their standards: [btoa] (HTML), [String.prototype.trim] and [ToInt16]
      (ECMAScript), IEEE 754 binary64 multiplication ([SFmul 53 1024]).
      [JSON.parse], the byte order of typed arrays and the moment at which
      React runs a state updater are parameters, gathered in [Platform]. *)

From Stdlib Require Import String Ascii.
From Stdlib Require Import Strings.Byte.
From Stdlib Require Import List ZArith NArith PArith Lia Bool.
From Stdlib Require Import QArith Qround.
From Stdlib Require Import Floats.SpecFloat.
Import ListNotations.

Set Implicit Arguments.

(* ================================================================== *)
(** * Part I: definitions *)
(* ================================================================== *)

(** ** JavaScript strings *)

Module JS.

Definition jsstring := list N.

(** An ASCII literal as a JavaScript string. *)
Definition js (s : string) : jsstring :=
  map N_of_ascii (list_ascii_of_string s).

(** A string is truthy when it is not empty. *)
Definition truthy (s : jsstring) : bool :=
  match s with
  | [] => false
  | _ :: _ => true
  end.

(** [a || b] on strings. *)
Definition or_else (a b : jsstring) : jsstring :=
  if truthy a then a else b.

(** ECMAScript [WhiteSpace] and [LineTerminator] code points, the
    characters removed by [trim]. *)
Definition is_white_space (c : N) : bool :=
  ((9 <=? c) && (c <=? 13)            (* TAB, LF, VT, FF, CR *)
   || (c =? 32)                       (* SPACE *)
   || (c =? 160)                      (* NO-BREAK SPACE *)
   || (c =? 5760)                     (* U+1680 *)
   || ((8192 <=? c) && (c <=? 8202))  (* U+2000 .. U+200A *)
   || (c =? 8232) || (c =? 8233)      (* LINE / PARAGRAPH SEPARATOR *)
   || (c =? 8239)                     (* U+202F *)
   || (c =? 8287)                     (* U+205F *)
   || (c =? 12288)                    (* U+3000 *)
   || (c =? 65279))%N%bool.           (* U+FEFF *)

Fixpoint trimStart (s : jsstring) : jsstring :=
  match s with
  | [] => []
  | c :: r => if is_white_space c then trimStart r else s
  end.

Definition trimEnd (s : jsstring) : jsstring := rev (trimStart (rev s)).

Definition trim (s : jsstring) : jsstring := trimEnd (trimStart s).

(** [String.fromCharCode(n)] for one argument: the code unit [n mod 2^16]. *)
Definition fromCharCode (n : N) : N := (n mod 65536)%N.

(** [s.split(sep)] for a separator of one code unit: the pieces between
    the occurrences of [sep], the empty string giving one empty piece. *)
Fixpoint split (sep : N) (s : jsstring) : list jsstring :=
  match s with
  | [] => [[]]
  | c :: r =>
      if (c =? sep)%N then [] :: split sep r
      else match split sep r with
           | piece :: pieces => (c :: piece) :: pieces
           | [] => [[c]]
           end
  end.

End JS.

Import JS.

(** A call either returns a value or throws. *)
Inductive completion (E A : Type) : Type :=
| Normal (a : A)
| Throw (e : E).
Arguments Normal {E A} a.
Arguments Throw {E A} e.

Inductive JSError : Type :=
| InvalidCharacterError
| InvalidStateError
| TypeError
| SyntaxError (message : jsstring)
| Error (message : jsstring).

(** ** Base64 *)

Module Base64.

Definition alphabet : jsstring :=
  js "ABCDEFGHIJKLMNOPQRSTUVWXYZabcdefghijklmnopqrstuvwxyz0123456789+/".

(** The padding character, [=]. *)
Definition pad : N := 61%N.

Definition b64_char (n : N) : N := nth (N.to_nat n) alphabet pad.

(** [btoa] on a string whose code units are all below 256, three input
    units to four output characters, as browsers implement it. *)
Fixpoint btoa_units (l : list N) : jsstring :=
  match l with
  | [] => []
  | [a] =>
      [ b64_char (N.shiftr a 2);
        b64_char (N.shiftl (N.land a 3) 4);
        pad; pad ]
  | [a; b] =>
      [ b64_char (N.shiftr a 2);
        b64_char (N.lor (N.shiftl (N.land a 3) 4) (N.shiftr b 4));
        b64_char (N.shiftl (N.land b 15) 2);
        pad ]
  | a :: b :: c :: rest =>
      b64_char (N.shiftr a 2)
      :: b64_char (N.lor (N.shiftl (N.land a 3) 4) (N.shiftr b 4))
      :: b64_char (N.lor (N.shiftl (N.land b 15) 2) (N.shiftr c 6))
      :: b64_char (N.land c 63)
      :: btoa_units rest
  end.

(** [btoa(data)]: throws [InvalidCharacterError] when [data] holds a code
    unit above U+00FF. *)
Definition btoa (data : jsstring) : completion JSError jsstring :=
  if forallb (fun c => c <=? 255)%N data
  then Normal (btoa_units data)
  else Throw InvalidCharacterError.

(** *** RFC 4648, section 4, from its words

    The input is read as a stream of bits, most significant bit of each
    octet first; the stream is cut in groups of six bits, the last group
    filled with zero bits; each group selects a character of the alphabet;
    the output is padded with [=] to a multiple of four characters. *)

Definition bits_of_octet (b : byte) : list bool :=
  let n := Byte.to_N b in
  map (N.testbit n) [7; 6; 5; 4; 3; 2; 1; 0]%N.

Definition value_of_bits (bs : list bool) : N :=
  fold_left (fun acc (b : bool) => 2 * acc + (if b then 1 else 0))%N bs 0%N.

Fixpoint sextets (bits : list bool) : list (list bool) :=
  match bits with
  | [] => []
  | b1 :: b2 :: b3 :: b4 :: b5 :: b6 :: rest =>
      [b1; b2; b3; b4; b5; b6] :: sextets rest
  | partial => [firstn 6 (partial ++ repeat false 6)%list]
  end.

Definition rfc4648_encode (octets : list byte) : jsstring :=
  let chars :=
    map (fun g => b64_char (value_of_bits g))
        (sextets (flat_map bits_of_octet octets)) in
  (chars ++ repeat pad ((4 - length chars mod 4) mod 4))%list.

(** *** RFC 4648 decoding, used to state what a payload decodes to. *)

Fixpoint index_in (c : N) (l : list N) (i : N) : option N :=
  match l with
  | [] => None
  | x :: r => if (x =? c)%N then Some i else index_in c r (N.succ i)
  end.

Definition b64_index (c : N) : option N := index_in c alphabet 0%N.

Definition octet_of_N (n : N) : byte :=
  match Byte.of_N (n mod 256) with
  | Some b => b
  | None => x00
  end.

Definition is_nil {A} (l : list A) : bool :=
  match l with [] => true | _ => false end.

Fixpoint rfc4648_decode (s : jsstring) : option (list byte) :=
  match s with
  | [] => Some []
  | c1 :: c2 :: c3 :: c4 :: rest =>
      match b64_index c1, b64_index c2 with
      | Some n1, Some n2 =>
          let o1 := octet_of_N (N.lor (N.shiftl n1 2) (N.shiftr n2 4)) in
          if (c3 =? pad)%N then
            if (c4 =? pad)%N && is_nil rest then Some [o1] else None
          else
            match b64_index c3 with
            | Some n3 =>
                let o2 := octet_of_N (N.lor (N.shiftl n2 4) (N.shiftr n3 2)) in
                if (c4 =? pad)%N then
                  if is_nil rest then Some [o1; o2] else None
                else
                  match b64_index c4, rfc4648_decode rest with
                  | Some n4, Some tl =>
                      Some (o1 :: o2 :: octet_of_N (N.lor (N.shiftl n3 6) n4) :: tl)
                  | _, _ => None
                  end
            | None => None
            end
      | _, _ => None
      end
  | _ => None
  end.

End Base64.

(** ** [src/utils/audio.ts] *)

Module Audio.

Import Base64.

(** [encode(bytes: Uint8Array): string]: the loop builds the binary string
    one [String.fromCharCode(bytes[i])] at a time, [btoa] encodes it. *)
Definition encode (bytes : list byte) : completion JSError jsstring :=
  let binary :=
    fold_left (fun binary b => binary ++ [fromCharCode (Byte.to_N b)])
              bytes [] in
  btoa binary.

(** Byte order in which the platform lays out the elements of a typed
    array: [new Uint8Array(int16.buffer)] exposes it. *)
Inductive Endianness : Type := LittleEndian | BigEndian.

Definition Float32Array := list spec_float.

(** The elements of a [Float32Array] are binary32 values. *)
Definition binary32 (x : spec_float) : bool := valid_binary 24 128 x.

(** Reading [data[i]] yields a Number: the binary32 value in binary64. *)
Definition to_Number (x : spec_float) : spec_float :=
  match x with
  | S754_finite s m e => binary_round 53 1024 s m e
  | _ => x
  end.

(** The Number [32768], that is [2^52 * 2^-37]. *)
Definition Number_32768 : spec_float :=
  S754_finite false 4503599627370496 (-37).

(** [data[i] * 32768] *)
Definition times_32768 (x : spec_float) : spec_float :=
  SFmul 53 1024 (to_Number x) Number_32768.

(** ECMAScript [ToInt16], applied when a Number is stored in an
    [Int16Array]: NaN, the infinities and the zeros give 0; otherwise the
    Number is truncated to an integer, reduced modulo [2^16] and read as a
    signed 16-bit value. *)
Definition ToInt16 (x : spec_float) : Z :=
  match x with
  | S754_finite s m e =>
      let int := cond_Zopp s (Z.shiftl (Zpos m) e) in
      let int16bit := int mod 65536 in
      if 32768 <=? int16bit then int16bit - 65536 else int16bit
  | _ => 0
  end%Z.

Definition octet_of_Z (z : Z) : byte := octet_of_N (Z.to_N z).

(** The two bytes that hold one [Int16Array] element (two's complement). *)
Definition int16_bytes (order : Endianness) (v : Z) : list byte :=
  let u := Z.land v 65535 in
  let lo := octet_of_Z (Z.land u 255) in
  let hi := octet_of_Z (Z.shiftr u 8) in
  match order with
  | LittleEndian => [lo; hi]
  | BigEndian => [hi; lo]
  end.

(** The loop of [createBlob]: [int16[i] = data[i] * 32768]. *)
Definition to_int16 (data : Float32Array) : list Z :=
  map (fun x => ToInt16 (times_32768 x)) data.

(** [new Uint8Array(int16.buffer)] *)
Definition buffer_bytes (order : Endianness) (int16 : list Z) : list byte :=
  flat_map (int16_bytes order) int16.

Record Blob : Type := { data : jsstring; mimeType : jsstring }.

Definition createBlob (order : Endianness) (samples : Float32Array)
  : completion JSError Blob :=
  let int16 := to_int16 samples in
  match encode (buffer_bytes order int16) with
  | Normal d => Normal {| data := d; mimeType := js "audio/pcm;rate=16000" |}
  | Throw e => Throw e
  end.

(** *** The encoder in the words of the specification

    "for each sample s, compute integer value = round-toward-zero(s x 32768)
    truncated to a signed 16-bit container ...; pack as little-endian
    bytes". *)

(** The rational number a finite sample stands for. *)
Definition sample_value (x : spec_float) : Q :=
  match x with
  | S754_finite s m e =>
      let n := cond_Zopp s (Zpos m) in
      match e with
      | Z0 => n # 1
      | Zpos p => (n * 2 ^ Zpos p) # 1
      | Zneg p => n # (2 ^ p)
      end
  | _ => 0
  end.

Definition round_toward_zero (q : Q) : Z := Z.quot (Qnum q) (Zpos (Qden q)).

(** The value of the signed 16-bit container that holds [n] modulo [2^16]. *)
Definition wrap_int16 (n : Z) : Z := ((n + 32768) mod 65536 - 32768)%Z.

Definition spec_pcm16 (x : spec_float) : Z :=
  wrap_int16 (round_toward_zero (sample_value x * (32768 # 1))).

Definition spec_le_bytes (v : Z) : list byte :=
  [octet_of_Z (v mod 256); octet_of_Z ((v / 256) mod 256)]%Z.

Definition finite_sample (x : spec_float) : bool :=
  match x with
  | S754_nan | S754_infinity _ => false
  | _ => binary32 x
  end.

End Audio.

(** ** The [App] component *)

Module Reply.
(** A parsed reply of the one-shot request. The request declares a response
    schema with the two keys required and of string type; a reply is taken
    to honour it. *)
Record t : Type := { transcription : jsstring; translation : jsstring }.
End Reply.

(** [src/components/TranscriptionCard.tsx]: a titled card that shows its
    text, or a placeholder when the text is empty. *)
Module Components.

Inductive CardBody : Type :=
| Paragraph (text : jsstring) (lang : option jsstring)
| Placeholder (text : jsstring).

Record Card : Type := { title : jsstring; body : CardBody }.

Definition TranscriptionCard (title text : jsstring) (lang : option jsstring)
  : Card :=
  {| title := title;
     body := if truthy text
             then Paragraph text lang
             else Placeholder (js "Waiting for audio...") |}.

End Components.

Module App.

Import Audio Components.

(** [type TranscriptionHistory] *)
Record TranscriptionHistory : Type :=
  { user : jsstring; translation : jsstring }.

(** *** Objects of the platform the component holds on to *)

(** A [MediaStream], by the identifiers of its tracks. *)
Record MediaStream : Type := { getTracks : list nat }.

Inductive AudioContextState : Type := suspended | running | closed.

Record AudioContext : Type := { state : AudioContextState }.

(** [AudioContext.close()] rejects with [InvalidStateError] on a context
    that is already closed. *)
Definition AudioContext_close (c : AudioContext)
  : completion JSError AudioContext :=
  match state c with
  | closed => Throw InvalidStateError
  | _ => Normal {| state := closed |}
  end.

(** A [ScriptProcessorNode] with its [onaudioprocess] handler: the handler
    is a closure, [handler_isRecording] is the value of the constant
    [isRecording] it was created with. *)
Record ScriptProcessorNode : Type := { handler_isRecording : bool }.

(** A [LiveSession]; whether its methods throw is the service's business. *)
Record LiveSession : Type :=
  { close_throws : bool; sendRealtimeInput_throws : bool }.

(** How a promise ends up. *)
Inductive Settlement : Type :=
| Fulfilled (session : LiveSession)
| Rejected
| NeverSettles.

(** The promise returned by [ai.live.connect], with the value of
    [isRecording] that the callbacks passed to [connect] closed over. *)
Record SessionPromise : Type :=
  { settles : Settlement; callbacks_isRecording : bool }.

(** Calls that leave the component, in the order they were made. *)
Inductive Effect : Type :=
| TrackStop (track : nat)
| ProcessorDisconnect
| ContextClose
| SessionClose
| SendRealtimeInput (media : Blob)
| ConsoleError (label : jsstring).

(** The function passed to [setHistory]. In [stopRecording] the new record
    is built inside the updater from the two transcription refs, so it
    holds what the refs hold when React runs the updater; elsewhere the
    record is built from constants of the calling handler. *)
Inductive HistoryUpdater : Type :=
| AppendRecord (r : TranscriptionHistory)
| AppendRefs.

(** React state ([useState]), refs ([useRef]), the updaters React has
    queued for [history], and the trace of outside calls. A state field
    holds the value last passed to its setter, which is the value the next
    render shows. *)
Record State : Type :=
  { isRecording : bool;
    isConnecting : bool;
    isProcessingFile : bool;
    userTranscript : jsstring;
    malayalamTranslation : jsstring;
    history : list TranscriptionHistory;
    error : option jsstring;
    sessionPromiseRef : option SessionPromise;
    streamRef : option MediaStream;
    audioContextRef : option AudioContext;
    scriptProcessorRef : option ScriptProcessorNode;
    currentInputTranscriptionRef : jsstring;
    currentOutputTranscriptionRef : jsstring;
    pendingHistory : list HistoryUpdater;
    effects : list Effect }.

Definition initial : State :=
  {| isRecording := false; isConnecting := false; isProcessingFile := false;
     userTranscript := []; malayalamTranslation := []; history := [];
     error := None; sessionPromiseRef := None; streamRef := None;
     audioContextRef := None; scriptProcessorRef := None;
     currentInputTranscriptionRef := [];
     currentOutputTranscriptionRef := [];
     pendingHistory := []; effects := [] |}.

(** One setter per field. *)

Definition set_isRecording (v : bool) (s : State) : State :=
  {| isRecording := v; isConnecting := isConnecting s;
     isProcessingFile := isProcessingFile s;
     userTranscript := userTranscript s;
     malayalamTranslation := malayalamTranslation s;
     history := history s; error := error s;
     sessionPromiseRef := sessionPromiseRef s; streamRef := streamRef s;
     audioContextRef := audioContextRef s;
     scriptProcessorRef := scriptProcessorRef s;
     currentInputTranscriptionRef := currentInputTranscriptionRef s;
     currentOutputTranscriptionRef := currentOutputTranscriptionRef s;
     pendingHistory := pendingHistory s; effects := effects s |}.

Definition set_isConnecting (v : bool) (s : State) : State :=
  {| isRecording := isRecording s; isConnecting := v;
     isProcessingFile := isProcessingFile s;
     userTranscript := userTranscript s;
     malayalamTranslation := malayalamTranslation s;
     history := history s; error := error s;
     sessionPromiseRef := sessionPromiseRef s; streamRef := streamRef s;
     audioContextRef := audioContextRef s;
     scriptProcessorRef := scriptProcessorRef s;
     currentInputTranscriptionRef := currentInputTranscriptionRef s;
     currentOutputTranscriptionRef := currentOutputTranscriptionRef s;
     pendingHistory := pendingHistory s; effects := effects s |}.

Definition set_isProcessingFile (v : bool) (s : State) : State :=
  {| isRecording := isRecording s; isConnecting := isConnecting s;
     isProcessingFile := v; userTranscript := userTranscript s;
     malayalamTranslation := malayalamTranslation s;
     history := history s; error := error s;
     sessionPromiseRef := sessionPromiseRef s; streamRef := streamRef s;
     audioContextRef := audioContextRef s;
     scriptProcessorRef := scriptProcessorRef s;
     currentInputTranscriptionRef := currentInputTranscriptionRef s;
     currentOutputTranscriptionRef := currentOutputTranscriptionRef s;
     pendingHistory := pendingHistory s; effects := effects s |}.

Definition set_userTranscript (v : jsstring) (s : State) : State :=
  {| isRecording := isRecording s; isConnecting := isConnecting s;
     isProcessingFile := isProcessingFile s; userTranscript := v;
     malayalamTranslation := malayalamTranslation s;
     history := history s; error := error s;
     sessionPromiseRef := sessionPromiseRef s; streamRef := streamRef s;
     audioContextRef := audioContextRef s;
     scriptProcessorRef := scriptProcessorRef s;
     currentInputTranscriptionRef := currentInputTranscriptionRef s;
     currentOutputTranscriptionRef := currentOutputTranscriptionRef s;
     pendingHistory := pendingHistory s; effects := effects s |}.

Definition set_malayalamTranslation (v : jsstring) (s : State) : State :=
  {| isRecording := isRecording s; isConnecting := isConnecting s;
     isProcessingFile := isProcessingFile s;
     userTranscript := userTranscript s; malayalamTranslation := v;
     history := history s; error := error s;
     sessionPromiseRef := sessionPromiseRef s; streamRef := streamRef s;
     audioContextRef := audioContextRef s;
     scriptProcessorRef := scriptProcessorRef s;
     currentInputTranscriptionRef := currentInputTranscriptionRef s;
     currentOutputTranscriptionRef := currentOutputTranscriptionRef s;
     pendingHistory := pendingHistory s; effects := effects s |}.

Definition set_history (v : list TranscriptionHistory) (s : State) : State :=
  {| isRecording := isRecording s; isConnecting := isConnecting s;
     isProcessingFile := isProcessingFile s;
     userTranscript := userTranscript s;
     malayalamTranslation := malayalamTranslation s; history := v;
     error := error s; sessionPromiseRef := sessionPromiseRef s;
     streamRef := streamRef s; audioContextRef := audioContextRef s;
     scriptProcessorRef := scriptProcessorRef s;
     currentInputTranscriptionRef := currentInputTranscriptionRef s;
     currentOutputTranscriptionRef := currentOutputTranscriptionRef s;
     pendingHistory := pendingHistory s; effects := effects s |}.

Definition set_error (v : option jsstring) (s : State) : State :=
  {| isRecording := isRecording s; isConnecting := isConnecting s;
     isProcessingFile := isProcessingFile s;
     userTranscript := userTranscript s;
     malayalamTranslation := malayalamTranslation s;
     history := history s; error := v;
     sessionPromiseRef := sessionPromiseRef s; streamRef := streamRef s;
     audioContextRef := audioContextRef s;
     scriptProcessorRef := scriptProcessorRef s;
     currentInputTranscriptionRef := currentInputTranscriptionRef s;
     currentOutputTranscriptionRef := currentOutputTranscriptionRef s;
     pendingHistory := pendingHistory s; effects := effects s |}.

Definition set_sessionPromiseRef (v : option SessionPromise) (s : State) : State :=
  {| isRecording := isRecording s; isConnecting := isConnecting s;
     isProcessingFile := isProcessingFile s;
     userTranscript := userTranscript s;
     malayalamTranslation := malayalamTranslation s;
     history := history s; error := error s; sessionPromiseRef := v;
     streamRef := streamRef s; audioContextRef := audioContextRef s;
     scriptProcessorRef := scriptProcessorRef s;
     currentInputTranscriptionRef := currentInputTranscriptionRef s;
     currentOutputTranscriptionRef := currentOutputTranscriptionRef s;
     pendingHistory := pendingHistory s; effects := effects s |}.

Definition set_streamRef (v : option MediaStream) (s : State) : State :=
  {| isRecording := isRecording s; isConnecting := isConnecting s;
     isProcessingFile := isProcessingFile s;
     userTranscript := userTranscript s;
     malayalamTranslation := malayalamTranslation s;
     history := history s; error := error s;
     sessionPromiseRef := sessionPromiseRef s; streamRef := v;
     audioContextRef := audioContextRef s;
     scriptProcessorRef := scriptProcessorRef s;
     currentInputTranscriptionRef := currentInputTranscriptionRef s;
     currentOutputTranscriptionRef := currentOutputTranscriptionRef s;
     pendingHistory := pendingHistory s; effects := effects s |}.

Definition set_audioContextRef (v : option AudioContext) (s : State) : State :=
  {| isRecording := isRecording s; isConnecting := isConnecting s;
     isProcessingFile := isProcessingFile s;
     userTranscript := userTranscript s;
     malayalamTranslation := malayalamTranslation s;
     history := history s; error := error s;
     sessionPromiseRef := sessionPromiseRef s; streamRef := streamRef s;
     audioContextRef := v; scriptProcessorRef := scriptProcessorRef s;
     currentInputTranscriptionRef := currentInputTranscriptionRef s;
     currentOutputTranscriptionRef := currentOutputTranscriptionRef s;
     pendingHistory := pendingHistory s; effects := effects s |}.

Definition set_scriptProcessorRef (v : option ScriptProcessorNode) (s : State) : State :=
  {| isRecording := isRecording s; isConnecting := isConnecting s;
     isProcessingFile := isProcessingFile s;
     userTranscript := userTranscript s;
     malayalamTranslation := malayalamTranslation s;
     history := history s; error := error s;
     sessionPromiseRef := sessionPromiseRef s; streamRef := streamRef s;
     audioContextRef := audioContextRef s; scriptProcessorRef := v;
     currentInputTranscriptionRef := currentInputTranscriptionRef s;
     currentOutputTranscriptionRef := currentOutputTranscriptionRef s;
     pendingHistory := pendingHistory s; effects := effects s |}.

Definition set_currentInputTranscriptionRef (v : jsstring) (s : State) : State :=
  {| isRecording := isRecording s; isConnecting := isConnecting s;
     isProcessingFile := isProcessingFile s;
     userTranscript := userTranscript s;
     malayalamTranslation := malayalamTranslation s;
     history := history s; error := error s;
     sessionPromiseRef := sessionPromiseRef s; streamRef := streamRef s;
     audioContextRef := audioContextRef s;
     scriptProcessorRef := scriptProcessorRef s;
     currentInputTranscriptionRef := v;
     currentOutputTranscriptionRef := currentOutputTranscriptionRef s;
     pendingHistory := pendingHistory s; effects := effects s |}.

Definition set_currentOutputTranscriptionRef (v : jsstring) (s : State) : State :=
  {| isRecording := isRecording s; isConnecting := isConnecting s;
     isProcessingFile := isProcessingFile s;
     userTranscript := userTranscript s;
     malayalamTranslation := malayalamTranslation s;
     history := history s; error := error s;
     sessionPromiseRef := sessionPromiseRef s; streamRef := streamRef s;
     audioContextRef := audioContextRef s;
     scriptProcessorRef := scriptProcessorRef s;
     currentInputTranscriptionRef := currentInputTranscriptionRef s;
     currentOutputTranscriptionRef := v;
     pendingHistory := pendingHistory s; effects := effects s |}.

Definition set_pendingHistory (v : list HistoryUpdater) (s : State) : State :=
  {| isRecording := isRecording s; isConnecting := isConnecting s;
     isProcessingFile := isProcessingFile s;
     userTranscript := userTranscript s;
     malayalamTranslation := malayalamTranslation s;
     history := history s; error := error s;
     sessionPromiseRef := sessionPromiseRef s; streamRef := streamRef s;
     audioContextRef := audioContextRef s;
     scriptProcessorRef := scriptProcessorRef s;
     currentInputTranscriptionRef := currentInputTranscriptionRef s;
     currentOutputTranscriptionRef := currentOutputTranscriptionRef s;
     pendingHistory := v; effects := effects s |}.

Definition set_effects (v : list Effect) (s : State) : State :=
  {| isRecording := isRecording s; isConnecting := isConnecting s;
     isProcessingFile := isProcessingFile s;
     userTranscript := userTranscript s;
     malayalamTranslation := malayalamTranslation s;
     history := history s; error := error s;
     sessionPromiseRef := sessionPromiseRef s; streamRef := streamRef s;
     audioContextRef := audioContextRef s;
     scriptProcessorRef := scriptProcessorRef s;
     currentInputTranscriptionRef := currentInputTranscriptionRef s;
     currentOutputTranscriptionRef := currentOutputTranscriptionRef s;
     pendingHistory := pendingHistory s; effects := v |}.

Definition log (es : list Effect) (s : State) : State :=
  set_effects (effects s ++ es) s.

(** What the platform decides. [runs_updater_now] tells whether React runs
    an updater during the [setHistory] call (it may, when the component has
    no update pending) or queues it for the next render. *)
Record Platform : Type :=
  { byteOrder : Endianness;
    JSON_parse : jsstring -> completion JSError Reply.t;
    runs_updater_now : State -> bool }.

(** How an [async] function ends: it returns, it throws, or it stays
    suspended at an [await] whose promise never settles. *)
Inductive Outcome : Type :=
| Returned (s : State)
| Threw (e : JSError) (s : State)
| Suspended (s : State).

Definition state_of (o : Outcome) : State :=
  match o with
  | Returned s | Threw _ s | Suspended s => s
  end.

Definition and_then (o : Outcome) (k : State -> Outcome) : Outcome :=
  match o with
  | Returned s => k s
  | _ => o
  end.

(** *** Messages of the live session *)

Record Transcription : Type := { text : option jsstring }.

Record LiveServerContent : Type :=
  { inputTranscription : option Transcription;
    outputTranscription : option Transcription;
    turnComplete : bool }.

Record LiveServerMessage : Type :=
  { serverContent : option LiveServerContent }.

(** [acc += text]; an absent [text] is [undefined] and appends as such. *)
Definition append_text (acc : jsstring) (t : Transcription) : jsstring :=
  acc ++ match text t with
         | Some x => x
         | None => js "undefined"
         end.

(** *** What the environment answers to a start and to an upload *)

Inductive MicOutcome : Type :=
| Granted (stream : MediaStream)
| Denied.

Inductive ClientOutcome : Type :=
| Connects (settles : Settlement)
| ConstructorThrows.

Record StartEnv : Type :=
  { getUserMedia : MicOutcome; client : ClientOutcome }.

(** The [try] block of [handleFileUpload] up to [response.text]: reading
    the file or the request fails (or the response has no text) with an
    error of the given message, or the response text arrives. *)
Inductive UploadOutcome : Type :=
| Failed (message : jsstring)
| Responded (text : jsstring).

(** The frame send that [onaudioprocess] chains on the session promise. *)
Record PendingSend : Type :=
  { awaited : SessionPromise;
    pcmBlob : Blob;
    isRecording_captured : bool }.

Section Handlers.

Context (P : Platform).

Definition run_updater (u : HistoryUpdater) (s : State)
           (prev : list TranscriptionHistory) : list TranscriptionHistory :=
  match u with
  | AppendRecord r => prev ++ [r]
  | AppendRefs =>
      prev ++ [ {| user := currentInputTranscriptionRef s;
                   translation := currentOutputTranscriptionRef s |} ]
  end.

(** [setHistory(updater)] *)
Definition setHistory (u : HistoryUpdater) (s : State) : State :=
  match pendingHistory s with
  | [] =>
      if runs_updater_now P s
      then set_history (run_updater u s (history s)) s
      else set_pendingHistory [u] s
  | q => set_pendingHistory (q ++ [u]) s
  end.

(** A render: React runs the queued updaters in order. *)
Definition render (s : State) : State :=
  set_pendingHistory []
    (set_history
       (fold_left (fun h u => run_updater u s h)
                  (pendingHistory s) (history s)) s).

(** **** [stopRecording], lines 41-78, one definition per guarded step;
    lines 70-76 are [commit_partial] *)

Definition stop_tracks (s : State) : State :=
  match streamRef s with
  | Some stream =>
      set_streamRef None (log (map TrackStop (getTracks stream)) s)
  | None => s
  end.

Definition disconnect_processor (s : State) : State :=
  match scriptProcessorRef s, audioContextRef s with
  | Some _, Some _ =>
      set_scriptProcessorRef None (log [ProcessorDisconnect] s)
  | _, _ => s
  end.

Definition close_context (s : State) : Outcome :=
  match audioContextRef s with
  | Some c =>
      match state c with
      | closed => Returned s
      | _ =>
          match AudioContext_close c with
          | Normal _ =>
              Returned (set_audioContextRef None (log [ContextClose] s))
          | Throw e => Threw e s
          end
      end
  | None => Returned s
  end.

Definition close_session (s : State) : Outcome :=
  match sessionPromiseRef s with
  | Some p =>
      match settles p with
      | Fulfilled session =>
          let s :=
            if close_throws session
            then log [ConsoleError (js "Error closing session:")] s
            else log [SessionClose] s in
          Returned (set_sessionPromiseRef None s)
      | Rejected =>
          Returned
            (set_sessionPromiseRef None
               (log [ConsoleError (js "Error closing session:")] s))
      | NeverSettles => Suspended s
      end
  | None => Returned s
  end.

Definition clear_transcripts (s : State) : State :=
  set_currentOutputTranscriptionRef []
    (set_currentInputTranscriptionRef []
       (set_malayalamTranslation [] (set_userTranscript [] s))).

Definition commit_partial (s : State) : State :=
  let s :=
    if truthy (currentInputTranscriptionRef s)
       || truthy (currentOutputTranscriptionRef s)
    then setHistory AppendRefs s
    else s in
  clear_transcripts s.

(** Lines 42-68: the flags, then the four guarded releases. The [await]s
    of lines 56 and 62 complete within the call: no other handler runs
    while [stopRecording] is suspended, and a promise that never settles
    leaves it suspended for good. *)
Definition release_resources (s : State) : Outcome :=
  let s := set_isConnecting false (set_isRecording false s) in
  let s := stop_tracks s in
  let s := disconnect_processor s in
  and_then (close_context s) close_session.

Definition stopRecording (s : State) : Outcome :=
  and_then (release_resources s) (fun s => Returned (commit_partial s)).

(** **** [startRecording], lines 80-162

    [isRecording_const] is the constant [isRecording] of the render that
    created this [startRecording] (it is among the dependencies of
    [useCallback]); the callbacks passed to [connect] close over it. *)

Definition start_failed (s : State) : State :=
  set_isConnecting false
    (set_error
       (Some (js "Could not access microphone. Please grant permission and try again."))
       (log [ConsoleError (js "Failed to start recording:")] s)).

Definition startRecording (isRecording_const : bool) (env : StartEnv)
           (s : State) : State :=
  let s :=
    set_malayalamTranslation []
      (set_userTranscript [] (set_error None (set_isConnecting true s))) in
  match getUserMedia env with
  | Denied => start_failed s
  | Granted stream =>
      let s :=
        set_isRecording true
          (set_isConnecting false (set_streamRef (Some stream) s)) in
      match client env with
      | ConstructorThrows => start_failed s
      | Connects st =>
          set_sessionPromiseRef
            (Some {| settles := st;
                     callbacks_isRecording := isRecording_const |}) s
      end
  end.

(** [onopen], lines 96-118, of the connection [p].
    [createMediaStreamSource] throws on a null stream. *)
Definition onopen (p : SessionPromise) (s : State) : Outcome :=
  let s := set_audioContextRef (Some {| state := running |}) s in
  match streamRef s with
  | None => Threw TypeError s
  | Some _ =>
      Returned
        (set_scriptProcessorRef
           (Some {| handler_isRecording := callbacks_isRecording p |}) s)
  end.

(** **** [onaudioprocess], lines 101-115 *)

Definition send_failed (s : State) : State :=
  state_of
    (stopRecording
       (set_error
          (Some (js "Failed to send audio data. Please try again."))
          (log [ConsoleError (js "Error sending audio data:")] s))).

(** The synchronous part: encode the frame and, when the session ref is
    set, chain the send on the promise it holds. *)
Definition onaudioprocess (node : ScriptProcessorNode)
           (inputData : Float32Array) (s : State)
  : completion JSError (option PendingSend) :=
  match createBlob (byteOrder P) inputData with
  | Throw e => Throw e
  | Normal blob =>
      Normal
        match sessionPromiseRef s with
        | Some p =>
            Some {| awaited := p; pcmBlob := blob;
                    isRecording_captured := handler_isRecording node |}
        | None => None
        end
  end.

(** The chained part, [.then(...).catch(...)], run once the promise has
    settled, on the state the component is in by then. *)
Definition send_continuation (k : PendingSend) (s : State) : State :=
  match settles (awaited k) with
  | Fulfilled session =>
      if isRecording_captured k then
        if sendRealtimeInput_throws session
        then send_failed s
        else log [SendRealtimeInput (pcmBlob k)] s
      else s
  | Rejected => send_failed s
  | NeverSettles => s
  end.

(** **** [onmessage], lines 119-141 *)

Definition on_inputTranscription (c : LiveServerContent) (s : State) : State :=
  match inputTranscription c with
  | Some t =>
      let s :=
        set_currentInputTranscriptionRef
          (append_text (currentInputTranscriptionRef s) t) s in
      set_userTranscript (currentInputTranscriptionRef s) s
  | None => s
  end.

Definition on_outputTranscription (c : LiveServerContent) (s : State) : State :=
  match outputTranscription c with
  | Some t =>
      let s :=
        set_currentOutputTranscriptionRef
          (append_text (currentOutputTranscriptionRef s) t) s in
      set_malayalamTranslation (currentOutputTranscriptionRef s) s
  | None => s
  end.

Definition on_turnComplete (c : LiveServerContent) (s : State) : State :=
  if turnComplete c then
    let fullInput := currentInputTranscriptionRef s in
    let fullOutput := currentOutputTranscriptionRef s in
    let s :=
      if truthy (trim fullInput) || truthy (trim fullOutput)
      then setHistory
             (AppendRecord {| user := fullInput; translation := fullOutput |}) s
      else s in
    clear_transcripts s
  else s.

Definition onmessage (message : LiveServerMessage) (s : State) : State :=
  match serverContent message with
  | Some c =>
      on_turnComplete c (on_outputTranscription c (on_inputTranscription c s))
  | None => s
  end.

(** [onerror], lines 142-146; [message] is [e.message], empty when
    absent. *)
Definition onerror (message : jsstring) (s : State) : State :=
  let s := log [ConsoleError (js "Session error:")] s in
  let s :=
    set_error
      (Some (js "An error occurred: "
             ++ or_else message (js "Unknown error")
             ++ js ". Please try again.")) s in
  state_of (stopRecording s).

(** [handleToggleRecording], lines 165-171. The handler and the
    [startRecording] it calls belong to the same render, so the constant
    [isRecording] of that [startRecording] is the value tested here. *)
Definition handleToggleRecording (env : StartEnv) (s : State) : State :=
  if isRecording s
  then state_of (stopRecording s)
  else startRecording (isRecording s) env s.

(** **** [handleFileUpload], lines 186-246; [None] is "no file chosen".
    The [finally] block also empties the file input, which is no part of
    the state kept here. *)

Definition upload_failed (message : jsstring) (s : State) : State :=
  set_error
    (Some (js "Failed to process audio file: "
           ++ or_else message (js "Unknown error")))
    (log [ConsoleError (js "File processing error:")] s).

Definition handleFileUpload (file : option UploadOutcome) (s : State) : State :=
  match file with
  | None => s
  | Some outcome =>
      let s :=
        set_malayalamTranslation []
          (set_userTranscript []
             (set_error None (set_isProcessingFile true s))) in
      let s :=
        match outcome with
        | Failed message => upload_failed message s
        | Responded text =>
            let jsonString := trim text in
            match JSON_parse P jsonString with
            | Throw (SyntaxError message) | Throw (Error message) =>
                upload_failed message s
            | Throw _ => upload_failed [] s
            | Normal result =>
                if truthy (Reply.transcription result)
                   || truthy (Reply.translation result)
                then
                  set_malayalamTranslation (Reply.translation result)
                    (set_userTranscript (Reply.transcription result)
                       (setHistory
                          (AppendRecord
                             {| user := Reply.transcription result;
                                translation := Reply.translation result |})
                          s))
                else
                  upload_failed
                    (js "Received empty transcription/translation.") s
            end
        end in
      set_isProcessingFile false s
  end.

(** *** The component as a transition system *)

Inductive Event : Type :=
| Click (env : StartEnv)
| SessionOpened
| SessionMessage (message : LiveServerMessage)
| SessionErrored (message : jsstring)
| SessionClosed
| AudioProcess (inputData : Float32Array)
| FileChosen (file : option UploadOutcome)
| Rendered
| Unmounted.

Definition step (ev : Event) (s : State) : State :=
  match ev with
  | Click env => handleToggleRecording env s
  | SessionOpened =>
      match sessionPromiseRef s with
      | Some p => state_of (onopen p s)
      | None => s
      end
  | SessionMessage m => onmessage m s
  | SessionErrored m => onerror m s
  | SessionClosed => s
  | AudioProcess inputData =>
      match scriptProcessorRef s with
      | Some node =>
          match onaudioprocess node inputData s with
          | Normal (Some k) => send_continuation k s
          | _ => s
          end
      | None => s
      end
  | FileChosen file => handleFileUpload file s
  | Rendered => render s
  | Unmounted => state_of (stopRecording s)
  end.

Definition run (evs : list Event) (s : State) : State :=
  fold_left (fun s ev => step ev s) evs s.

Inductive reachable : State -> Prop :=
| reachable_initial : reachable initial
| reachable_step ev s : reachable s -> reachable (step ev s).

End Handlers.

(** *** [fileToBase64], lines 173-184

    [readAsDataURL] ends with [onload], [reader.result] holding the data
    URL, or with [onerror], whose event the promise is rejected with. *)

Inductive ProgressEvent : Type := progress_event (type : jsstring).

Inductive FileRead : Type :=
| Loaded (result : jsstring)
| ReadFailed (error : ProgressEvent).

(** [result.split(',')[1]] is [undefined], here [None], when the result
    holds no comma. *)
Definition fileToBase64 (file : FileRead)
  : completion ProgressEvent (option jsstring) :=
  match file with
  | Loaded result =>
      let base64Data := nth_error (split 44 result) 1 in
      Normal base64Data
  | ReadFailed error => Throw error
  end.

(** Lines 196-226 of [handleFileUpload]: the file is read and the request
    is made with what [fileToBase64] resolved to; [generateContent] stands
    for the service. A [ProgressEvent] has no [message], so a rejected
    read reaches the [catch] block with an absent message. *)
Definition read_and_request (file : FileRead)
           (generateContent : option jsstring -> UploadOutcome)
  : UploadOutcome :=
  match fileToBase64 file with
  | Normal base64Data => generateContent base64Data
  | Throw _ => Failed []
  end.

(** *** What a render shows, lines 254-334 *)

Definition getStatusText (s : State) : jsstring :=
  if isConnecting s then js "Connecting..."
  else if isRecording s then js "Recording... Click to stop"
  else if isProcessingFile s then js "Processing audio file..."
  else js "Click to record or upload an audio file".

Definition isBusy (s : State) : bool :=
  isConnecting s || isRecording s || isProcessingFile s.

Inductive Icon : Type := LoadingIcon | StopIcon | MicrophoneIcon | UploadIcon.

(** The parts of the returned element that depend on the state: the two
    cards, the history list (absent while the history is empty) with the
    [key] of each row, the alert (absent while [error] is falsy), the two
    controls and the status line. Class names and layout are left out. *)
Record View : Type :=
  { speech_card : Card;
    translation_card : Card;
    history_list : option (list (nat * TranscriptionHistory));
    alert : option jsstring;
    record_disabled : bool;
    record_icon : Icon;
    upload_disabled : bool;
    upload_icon : Icon;
    status_line : jsstring }.

Definition view (s : State) : View :=
  {| speech_card :=
       TranscriptionCard (js "Your Speech") (userTranscript s) None;
     translation_card :=
       TranscriptionCard (js "Malayalam Translation")
                         (malayalamTranslation s) (Some (js "ml"));
     history_list :=
       if (0 <? length (history s))%nat
       then
         let reversed := rev (history s) in
         Some (combine (seq 0 (length reversed)) reversed)
       else None;
     alert :=
       match error s with
       | Some message => if truthy message then Some message else None
       | None => None
       end;
     record_disabled := isConnecting s || isProcessingFile s;
     record_icon :=
       if isConnecting s then LoadingIcon
       else if isRecording s then StopIcon else MicrophoneIcon;
     upload_disabled := isBusy s;
     upload_icon := if isProcessingFile s then LoadingIcon else UploadIcon;
     status_line := getStatusText s |}.

(** *** Properties of states used below *)

Definition handles_released (s : State) : Prop :=
  streamRef s = None /\ scriptProcessorRef s = None
  /\ audioContextRef s = None /\ sessionPromiseRef s = None.

Definition non_blank (s : jsstring) : Prop :=
  exists c, In c s /\ is_white_space c = false.

Definition non_blankb (s : jsstring) : bool :=
  existsb (fun c => negb (is_white_space c)) s.

Definition sent_frames (s : State) : list Blob :=
  flat_map (fun e => match e with SendRealtimeInput b => [b] | _ => [] end)
           (effects s).

End App.

Import Base64 Audio App.

(** ** Auxiliary definitions of the proofs *)

(** Bit [i] of an octet. *)
Definition bit (b : byte) (i : N) : bool := N.testbit (Byte.to_N b) i.

(** Mantissa and exponent of a binary32 value once widened to binary64. *)
Definition widen_m (m : positive) : positive :=
  Pos.iter xO m (Z.to_pos (53 - Zpos (digits2_pos m))).

Definition widen_e (m : positive) (e : Z) : Z :=
  (Zpos (digits2_pos m) + e - 53)%Z.

(** The last two steps of [ToInt16]. *)
Definition signed16 (int : Z) : Z :=
  let int16bit := (int mod 65536)%Z in
  if (32768 <=? int16bit)%Z then (int16bit - 65536)%Z else int16bit.

(** A processor node is only held together with a context, and a context
    that is held is not closed: what makes the guards of [stopRecording]
    sufficient. *)
Definition graph_consistent (s : State) : bool :=
  match scriptProcessorRef s, audioContextRef s with
  | _, Some c => match state c with closed => false | _ => true end
  | Some _, None => false
  | None, None => true
  end.

(** Every closure that tests [isRecording] was created by a [startRecording]
    whose constant [isRecording] is [false]. *)
Definition stale_flags (s : State) : bool :=
  match sessionPromiseRef s with
  | Some p => negb (callbacks_isRecording p)
  | None => true
  end
  && match scriptProcessorRef s with
     | Some node => negb (handler_isRecording node)
     | None => true
     end.

Definition invariant (s : State) : bool :=
  graph_consistent s && stale_flags s.

Definition sends (es : list Effect) : list Blob :=
  flat_map (fun e => match e with SendRealtimeInput b => [b] | _ => [] end) es.

Definition blank_record : TranscriptionHistory :=
  {| user := []; translation := [] |}.

(** A frame send fails when the awaited promise is rejected, or when the
    send is attempted and [sendRealtimeInput] throws. *)
Definition send_fails (k : PendingSend) : Prop :=
  settles (awaited k) = Rejected
  \/ exists session,
       settles (awaited k) = Fulfilled session
       /\ isRecording_captured k = true
       /\ sendRealtimeInput_throws session = true.

Definition send_error_message : jsstring :=
  js "Failed to send audio data. Please try again.".

(** NaN and the two infinities. *)
Definition non_finite (x : spec_float) : bool :=
  match x with
  | S754_nan | S754_infinity _ => true
  | _ => false
  end.

(** Reading an [Int16Array] element back from the two bytes that hold it,
    as [DataView.getInt16] does. *)
Definition read_int16 (order : Endianness) (b0 b1 : byte) : Z :=
  let (lo, hi) :=
    match order with
    | LittleEndian => (b0, b1)
    | BigEndian => (b1, b0)
    end in
  signed16 (Z.of_N (Byte.to_N lo) + 256 * Z.of_N (Byte.to_N hi)).

Fixpoint read_int16s (order : Endianness) (bytes : list byte) : list Z :=
  match bytes with
  | b0 :: b1 :: rest => read_int16 order b0 b1 :: read_int16s order rest
  | _ => []
  end.

(** A character of the Base64 alphabet, which the padding character is
    not. *)
Definition symbol (c : N) : Prop := In c alphabet /\ c <> pad.

(** The recording flag is set exactly while a microphone stream is held. *)
Definition mic_follows_flag (s : State) : bool :=
  Bool.eqb (isRecording s)
           match streamRef s with
           | Some _ => true
           | None => false
           end.

(** [l'] is [l] with elements added at its end. *)
Definition extends (A : Type) (l l' : list A) : Prop :=
  exists added, l' = l ++ added.

(** The comma, at which [fileToBase64] splits a data URL. *)
Definition comma : N := 44%N.

(** A message that carries the input transcription [t] and nothing else. *)
Definition input_fragment (t : jsstring) : LiveServerMessage :=
  {| serverContent :=
       Some {| inputTranscription := Some {| text := Some t |};
               outputTranscription := None;
               turnComplete := false |} |}.

(** ** Concrete inputs *)

(** A little-endian platform whose React queues every updater and whose
    [JSON.parse] rejects every text. *)
Definition deferred_platform : Platform :=
  {| byteOrder := LittleEndian;
     JSON_parse := fun _ => Throw (SyntaxError (js "Unexpected end of JSON input"));
     runs_updater_now := fun _ => false |}.

(** The same platform with a React that runs every updater at once. *)
Definition eager_platform : Platform :=
  {| byteOrder := LittleEndian;
     JSON_parse := fun _ => Throw (SyntaxError (js "Unexpected end of JSON input"));
     runs_updater_now := fun _ => true |}.

(** The same platform, answering every text with the reply
    [{transcription: hi, translation: navi}]. *)
Definition replying_platform : Platform :=
  {| byteOrder := LittleEndian;
     JSON_parse := fun _ =>
       Normal {| Reply.transcription := js "hi"; Reply.translation := js "navi" |};
     runs_updater_now := fun _ => false |}.

Definition well_behaved_session : LiveSession :=
  {| close_throws := false; sendRealtimeInput_throws := false |}.

Definition microphone_granted : StartEnv :=
  {| getUserMedia := Granted {| getTracks := [0%nat] |};
     client := Connects (Fulfilled well_behaved_session) |}.

(** A message that carries the input transcription [t] and nothing else. *)
Definition partial_input (t : string) : LiveServerMessage :=
  {| serverContent :=
       Some {| inputTranscription := Some {| text := Some (js t) |};
               outputTranscription := None;
               turnComplete := false |} |}.

Definition hello_turn : LiveServerContent :=
  {| inputTranscription := Some {| text := Some (js "hello") |};
     outputTranscription := None;
     turnComplete := true |}.

Definition rejected_send : PendingSend :=
  {| awaited := {| settles := Rejected; callbacks_isRecording := false |};
     pcmBlob := {| data := []; mimeType := js "audio/pcm;rate=16000" |};
     isRecording_captured := false |}.

(** The samples 1.0, -0.5 and 12345678 * 2^-30. *)
Definition sample_one : spec_float := S754_finite false 8388608 (-23).
Definition sample_minus_half : spec_float := S754_finite true 8388608 (-24).
Definition sample_small : spec_float := S754_finite false 12345678 (-30).

(** The microphone is refused. *)
Definition microphone_denied : StartEnv :=
  {| getUserMedia := Denied; client := Connects Rejected |}.

(** The microphone is granted and the client cannot be built. *)
Definition client_unavailable : StartEnv :=
  {| getUserMedia := Granted {| getTracks := [0%nat] |};
     client := ConstructorThrows |}.

(** A little-endian platform whose [JSON.parse] answers every text with the
    reply [{transcription: " ", translation: ""}]. *)
Definition blank_reply_platform : Platform :=
  {| byteOrder := LittleEndian;
     JSON_parse := fun _ =>
       Normal {| Reply.transcription := js " "; Reply.translation := [] |};
     runs_updater_now := fun _ => false |}.

(** A recording in progress: microphone granted, session opened. *)
Definition recording_state : State :=
  run deferred_platform [Click microphone_granted; SessionOpened] initial.

(* ================================================================== *)
(** * Part II: properties *)
(* ================================================================== *)

(** ** Lists, three elements at a time *)

Lemma list_ind3 (A : Type) (P : list A -> Prop) :
  P [] ->
  (forall a, P [a]) ->
  (forall a b, P [a; b]) ->
  (forall a b c l, P l -> P (a :: b :: c :: l)) ->
  forall l, P l.
Proof.
  intros H0 H1 H2 H3.
  fix IH 1.
  intros [|a [|b [|c l]]].
  - exact H0.
  - apply H1.
  - apply H2.
  - apply H3, IH.
Qed.

Lemma fold_left_snoc (A B : Type) (f : A -> B) (l : list A) (init : list B) :
  fold_left (fun acc x => acc ++ [f x]) l init = init ++ map f l.
Proof.
  revert init; induction l as [|x l IH]; intros init; simpl.
  - now rewrite app_nil_r.
  - rewrite IH, <- app_assoc. reflexivity.
Qed.

(** ** Octets and their bits *)

Lemma bits_of_octet_eq b :
  bits_of_octet b =
  [bit b 7; bit b 6; bit b 5; bit b 4; bit b 3; bit b 2; bit b 1; bit b 0].
Proof. reflexivity. Qed.

Lemma to_N_le_255 b : (Byte.to_N b <= 255)%N.
Proof. apply Byte.to_N_bounded. Qed.

Lemma fromCharCode_octet b : fromCharCode (Byte.to_N b) = Byte.to_N b.
Proof.
  unfold fromCharCode. apply N.mod_small.
  pose proof (to_N_le_255 b). lia.
Qed.

Lemma octet_of_bits b : octet_of_N (value_of_bits (bits_of_octet b)) = b.
Proof. destruct b; vm_compute; reflexivity. Qed.

Lemma octet_high6 b :
  N.shiftr (Byte.to_N b) 2 =
  value_of_bits [bit b 7; bit b 6; bit b 5; bit b 4; bit b 3; bit b 2].
Proof. destruct b; vm_compute; reflexivity. Qed.

Lemma octet_low2 b :
  N.land (Byte.to_N b) 3 = value_of_bits [bit b 1; bit b 0].
Proof. destruct b; vm_compute; reflexivity. Qed.

Lemma octet_high4 b :
  N.shiftr (Byte.to_N b) 4 = value_of_bits [bit b 7; bit b 6; bit b 5; bit b 4].
Proof. destruct b; vm_compute; reflexivity. Qed.

Lemma octet_low4 b :
  N.land (Byte.to_N b) 15 = value_of_bits [bit b 3; bit b 2; bit b 1; bit b 0].
Proof. destruct b; vm_compute; reflexivity. Qed.

Lemma octet_high2 b :
  N.shiftr (Byte.to_N b) 6 = value_of_bits [bit b 7; bit b 6].
Proof. destruct b; vm_compute; reflexivity. Qed.

Lemma octet_low6 b :
  N.land (Byte.to_N b) 63 =
  value_of_bits [bit b 5; bit b 4; bit b 3; bit b 2; bit b 1; bit b 0].
Proof. destruct b; vm_compute; reflexivity. Qed.

Ltac all_bools :=
  repeat match goal with
         | x : bool |- _ => destruct x
         end.

Lemma join_2_4 (x1 x0 y3 y2 y1 y0 : bool) :
  N.lor (N.shiftl (value_of_bits [x1; x0]) 4) (value_of_bits [y3; y2; y1; y0])
  = value_of_bits [x1; x0; y3; y2; y1; y0].
Proof. all_bools; reflexivity. Qed.

Lemma join_4_2 (x3 x2 x1 x0 y1 y0 : bool) :
  N.lor (N.shiftl (value_of_bits [x3; x2; x1; x0]) 2) (value_of_bits [y1; y0])
  = value_of_bits [x3; x2; x1; x0; y1; y0].
Proof. all_bools; reflexivity. Qed.

Lemma pad_2_4 (x1 x0 : bool) :
  N.shiftl (value_of_bits [x1; x0]) 4
  = value_of_bits [x1; x0; false; false; false; false].
Proof. all_bools; reflexivity. Qed.

Lemma pad_4_2 (x3 x2 x1 x0 : bool) :
  N.shiftl (value_of_bits [x3; x2; x1; x0]) 2
  = value_of_bits [x3; x2; x1; x0; false; false].
Proof. all_bools; reflexivity. Qed.

(** The four characters [btoa] derives from three octets, and the shorter
    final groups, in terms of the bits of the octets. *)

Lemma quantum_2 a b :
  N.lor (N.shiftl (N.land (Byte.to_N a) 3) 4) (N.shiftr (Byte.to_N b) 4)
  = value_of_bits [bit a 1; bit a 0; bit b 7; bit b 6; bit b 5; bit b 4].
Proof. rewrite octet_low2, octet_high4. apply join_2_4. Qed.

Lemma quantum_3 b c :
  N.lor (N.shiftl (N.land (Byte.to_N b) 15) 2) (N.shiftr (Byte.to_N c) 6)
  = value_of_bits [bit b 3; bit b 2; bit b 1; bit b 0; bit c 7; bit c 6].
Proof. rewrite octet_low4, octet_high2. apply join_4_2. Qed.

Lemma quantum_2_final a :
  N.shiftl (N.land (Byte.to_N a) 3) 4
  = value_of_bits [bit a 1; bit a 0; false; false; false; false].
Proof. rewrite octet_low2. apply pad_2_4. Qed.

Lemma quantum_3_final b :
  N.shiftl (N.land (Byte.to_N b) 15) 2
  = value_of_bits [bit b 3; bit b 2; bit b 1; bit b 0; false; false].
Proof. rewrite octet_low4. apply pad_4_2. Qed.

Lemma pad_count_step n :
  ((4 - S (S (S (S n))) mod 4) mod 4 = (4 - n mod 4) mod 4)%nat.
Proof.
  replace (S (S (S (S n)))) with (n + 1 * 4)%nat by lia.
  now rewrite Nat.Div0.mod_add.
Qed.

Lemma rfc4648_encode_step a b c rest :
  rfc4648_encode (a :: b :: c :: rest) =
  b64_char (value_of_bits [bit a 7; bit a 6; bit a 5; bit a 4; bit a 3; bit a 2])
  :: b64_char (value_of_bits [bit a 1; bit a 0; bit b 7; bit b 6; bit b 5; bit b 4])
  :: b64_char (value_of_bits [bit b 3; bit b 2; bit b 1; bit b 0; bit c 7; bit c 6])
  :: b64_char (value_of_bits [bit c 5; bit c 4; bit c 3; bit c 2; bit c 1; bit c 0])
  :: rfc4648_encode rest.
Proof.
  unfold rfc4648_encode.
  cbn [flat_map]. rewrite !bits_of_octet_eq.
  cbn [app sextets map]. cbn [length].
  rewrite (pad_count_step (length _)).
  reflexivity.
Qed.

Lemma btoa_units_rfc4648 (octets : list byte) :
  btoa_units (map Byte.to_N octets) = rfc4648_encode octets.
Proof.
  induction octets as [|a|a b|a b c rest IH] using list_ind3.
  - reflexivity.
  - cbn [map btoa_units]. rewrite octet_high6, quantum_2_final. reflexivity.
  - cbn [map btoa_units].
    rewrite octet_high6, quantum_2, quantum_3_final. reflexivity.
  - rewrite rfc4648_encode_step, <- IH.
    cbn [map btoa_units].
    rewrite octet_high6, quantum_2, quantum_3, octet_low6. reflexivity.
Qed.

Lemma binary_string_latin1 (octets : list byte) :
  forallb (fun c => c <=? 255)%N (map Byte.to_N octets) = true.
Proof.
  induction octets as [|b l IH]; simpl; [reflexivity|].
  rewrite IH, andb_true_r. apply N.leb_le, to_N_le_255.
Qed.

Lemma encode_binary_string (octets : list byte) :
  fold_left (fun binary b => binary ++ [fromCharCode (Byte.to_N b)]) octets []
  = map Byte.to_N octets.
Proof.
  rewrite (fold_left_snoc (fun b => fromCharCode (Byte.to_N b))). simpl.
  apply map_ext. intros b. apply fromCharCode_octet.
Qed.

Lemma encode_rfc4648 (octets : list byte) :
  encode octets = Normal (rfc4648_encode octets).
Proof.
  unfold encode. rewrite encode_binary_string.
  unfold btoa. rewrite binary_string_latin1.
  now rewrite btoa_units_rfc4648.
Qed.

(** ** Decoding what [btoa] produced *)

Lemma sextet_index (x5 x4 x3 x2 x1 x0 : bool) :
  let n := value_of_bits [x5; x4; x3; x2; x1; x0] in
  b64_index (b64_char n) = Some n /\ (b64_char n =? pad)%N = false.
Proof. all_bools; vm_compute; split; reflexivity. Qed.

Lemma first_octet (x7 x6 x5 x4 x3 x2 x1 x0 y7 y6 y5 y4 : bool) :
  N.lor (N.shiftl (value_of_bits [x7; x6; x5; x4; x3; x2]) 2)
        (N.shiftr (value_of_bits [x1; x0; y7; y6; y5; y4]) 4)
  = value_of_bits [x7; x6; x5; x4; x3; x2; x1; x0].
Proof. all_bools; vm_compute; reflexivity. Qed.

Lemma second_octet (x1 x0 y7 y6 y5 y4 y3 y2 y1 y0 z7 z6 : bool) :
  octet_of_N
    (N.lor (N.shiftl (value_of_bits [x1; x0; y7; y6; y5; y4]) 4)
           (N.shiftr (value_of_bits [y3; y2; y1; y0; z7; z6]) 2))
  = octet_of_N (value_of_bits [y7; y6; y5; y4; y3; y2; y1; y0]).
Proof. all_bools; vm_compute; reflexivity. Qed.

Lemma third_octet (y3 y2 y1 y0 z7 z6 z5 z4 z3 z2 z1 z0 : bool) :
  octet_of_N
    (N.lor (N.shiftl (value_of_bits [y3; y2; y1; y0; z7; z6]) 6)
           (value_of_bits [z5; z4; z3; z2; z1; z0]))
  = octet_of_N (value_of_bits [z7; z6; z5; z4; z3; z2; z1; z0]).
Proof. all_bools; vm_compute; reflexivity. Qed.

Lemma octet_of_its_bits b :
  octet_of_N
    (value_of_bits
       [bit b 7; bit b 6; bit b 5; bit b 4; bit b 3; bit b 2; bit b 1; bit b 0])
  = b.
Proof. exact (octet_of_bits b). Qed.

Ltac sextet_facts :=
  repeat match goal with
         | |- context [b64_char (value_of_bits [?x5; ?x4; ?x3; ?x2; ?x1; ?x0])] =>
             let H := fresh "Hs" in
             pose proof (sextet_index x5 x4 x3 x2 x1 x0) as H;
             cbv zeta in H;
             let Hi := fresh "Hi" in
             let Hp := fresh "Hp" in
             destruct H as [Hi Hp];
             rewrite ?Hi, ?Hp
         end.

Lemma decode_btoa_units (octets : list byte) :
  rfc4648_decode (btoa_units (map Byte.to_N octets)) = Some octets.
Proof.
  induction octets as [|a|a b|a b c rest IH] using list_ind3.
  - reflexivity.
  - cbn [map btoa_units]. rewrite octet_high6, quantum_2_final.
    cbn [rfc4648_decode].
    sextet_facts.
    rewrite first_octet, octet_of_its_bits. reflexivity.
  - cbn [map btoa_units]. rewrite octet_high6, quantum_2, quantum_3_final.
    cbn [rfc4648_decode].
    sextet_facts.
    rewrite first_octet, octet_of_its_bits.
    rewrite (second_octet _ _ _ _ _ _ _ _ _ _ false false), octet_of_its_bits.
    reflexivity.
  - cbn [map btoa_units].
    rewrite octet_high6, quantum_2, quantum_3, octet_low6.
    cbn [rfc4648_decode]. fold (map Byte.to_N rest). rewrite IH.
    sextet_facts.
    rewrite first_octet, octet_of_its_bits.
    rewrite second_octet, octet_of_its_bits.
    rewrite third_octet, octet_of_its_bits.
    reflexivity.
Qed.

Local Open Scope Z_scope.

(** ** binary32 samples, read as Numbers and scaled *)

Lemma Zpos_iter_xO m k : Zpos (Pos.iter xO m k) = Z.shiftl (Zpos m) (Zpos k).
Proof.
  unfold Z.shiftl.
  apply (Pos.iter_swap_gen _ _ Zpos xO (Z.mul 2)). reflexivity.
Qed.

Lemma digits2_pos_iter_xO m k :
  digits2_pos (Pos.iter xO m k) = (digits2_pos m + k)%positive.
Proof.
  induction k as [|k IH] using Pos.peano_ind.
  - simpl. lia.
  - rewrite Pos.iter_succ. simpl. rewrite IH. lia.
Qed.

Lemma shl_align_down mx ex ex' :
  ex' < ex ->
  shl_align mx ex ex' = (Pos.iter xO mx (Z.to_pos (ex - ex')), ex').
Proof.
  intros H. unfold shl_align.
  destruct (ex' - ex) as [|d|d] eqn:E; try lia.
  replace (ex - ex') with (Zpos d) by lia. reflexivity.
Qed.

(** A mantissa that is already canonical is left alone by rounding. *)
Lemma binary_round_aux_canonical prec emax s m e :
  bounded prec emax m e = true ->
  binary_round_aux prec emax s (Zpos m) e loc_Exact = S754_finite s m e.
Proof.
  unfold bounded, canonical_mantissa. intros H.
  apply andb_true_iff in H. destruct H as [Hc He].
  apply Z.eqb_eq in Hc.
  unfold binary_round_aux, shr_fexp. cbn [Zdigits2 shr_record_of_loc].
  rewrite Hc, Z.sub_diag. cbn [shr shr_m loc_of_shr_record round_nearest_even].
  cbn [Zdigits2 shr_record_of_loc]. rewrite Hc, Z.sub_diag.
  cbn [shr shr_m]. rewrite He. reflexivity.
Qed.

Lemma binary32_bounds m e :
  bounded 24 128 m e = true ->
  1 <= Zpos (digits2_pos m) <= 24 /\ -149 <= e <= 104.
Proof.
  unfold bounded, canonical_mantissa, fexp, emin. intros H.
  apply andb_true_iff in H. destruct H as [Hc He].
  apply Z.eqb_eq in Hc. apply Z.leb_le in He. lia.
Qed.

Lemma widen_digits m :
  Zpos (digits2_pos m) <= 24 -> Zpos (digits2_pos (widen_m m)) = 53.
Proof.
  intros H. unfold widen_m. rewrite digits2_pos_iter_xO. lia.
Qed.

Lemma to_Number_finite s m e :
  bounded 24 128 m e = true ->
  to_Number (S754_finite s m e) = S754_finite s (widen_m m) (widen_e m e).
Proof.
  intros Hb. destruct (binary32_bounds _ _ Hb) as [Hd He].
  unfold to_Number, binary_round.
  assert (Hf : fexp 53 1024 (Zpos (digits2_pos m) + e) = widen_e m e).
  { unfold fexp, emin, widen_e. lia. }
  rewrite Hf, shl_align_down by (unfold widen_e; lia).
  replace (e - widen_e m e) with (53 - Zpos (digits2_pos m))
    by (unfold widen_e; lia).
  fold (widen_m m).
  apply binary_round_aux_canonical.
  unfold bounded, canonical_mantissa.
  rewrite (widen_digits m) by lia.
  apply andb_true_iff. split.
  - apply Z.eqb_eq. unfold fexp, emin, widen_e. lia.
  - apply Z.leb_le. unfold widen_e. lia.
Qed.

Lemma mul_2p52 m : (m * 4503599627370496)%positive = Pos.iter xO m 52.
Proof. rewrite Pos.mul_comm. reflexivity. Qed.

Lemma shr_52 m :
  iter_pos shr_1 52 (Build_shr_record (Zpos (Pos.iter xO m 52)) false false)
  = Build_shr_record (Zpos m) false false.
Proof. reflexivity. Qed.

(** Scaling by [2^15] only moves the exponent: the product is exact. *)
Lemma times_32768_finite s m e :
  bounded 24 128 m e = true ->
  times_32768 (S754_finite s m e)
  = S754_finite s (widen_m m) (widen_e m e + 15).
Proof.
  intros Hb. destruct (binary32_bounds _ _ Hb) as [Hd He].
  unfold times_32768. rewrite to_Number_finite by assumption.
  unfold Number_32768, SFmul. rewrite xorb_false_r, mul_2p52.
  unfold binary_round_aux at 1.
  assert (Hsh : shr_fexp 53 1024 (Zpos (Pos.iter xO (widen_m m) 52))
                         (widen_e m e + -37) loc_Exact
                = (Build_shr_record (Zpos (widen_m m)) false false,
                   widen_e m e + 15)).
  { unfold shr_fexp. cbn [Zdigits2 shr_record_of_loc].
    rewrite digits2_pos_iter_xO.
    replace (Zpos (digits2_pos (widen_m m) + 52))
      with (Zpos (digits2_pos (widen_m m)) + 52) by lia.
    rewrite (widen_digits m) by lia.
    replace (fexp 53 1024 (53 + 52 + (widen_e m e + -37)) - (widen_e m e + -37))
      with 52 by (unfold fexp, emin, widen_e; lia).
    cbn [shr]. rewrite shr_52. f_equal. lia. }
  rewrite Hsh. cbn [shr_m loc_of_shr_record round_nearest_even].
  assert (Hc : shr_fexp 53 1024 (Zpos (widen_m m)) (widen_e m e + 15) loc_Exact
               = (Build_shr_record (Zpos (widen_m m)) false false,
                  widen_e m e + 15)).
  { unfold shr_fexp. cbn [Zdigits2 shr_record_of_loc].
    rewrite (widen_digits m) by lia.
    replace (fexp 53 1024 (53 + (widen_e m e + 15)) - (widen_e m e + 15))
      with 0 by (unfold fexp, emin, widen_e; lia).
    reflexivity. }
  rewrite Hc. cbn [shr_m].
  replace (widen_e m e + 15 <=? 1024 - 53) with true; [reflexivity|].
  symmetry. apply Z.leb_le. unfold widen_e. lia.
Qed.

Lemma widen_shift m e :
  Zpos (digits2_pos m) <= 24 ->
  Z.shiftl (Zpos (widen_m m)) (widen_e m e + 15) = Z.shiftl (Zpos m) (e + 15).
Proof.
  intros Hd. unfold widen_m. rewrite Zpos_iter_xO.
  rewrite Z.shiftl_shiftl by lia.
  f_equal. unfold widen_e. rewrite Z2Pos.id by lia. lia.
Qed.

(** ** Truncation and the 16-bit container *)

Lemma signed16_wrap n : signed16 n = wrap_int16 n.
Proof.
  unfold signed16, wrap_int16.
  destruct (Z.leb_spec 32768 (n mod 65536));
    Z.div_mod_to_equations; lia.
Qed.

Lemma ToInt16_scaled s m e :
  bounded 24 128 m e = true ->
  ToInt16 (times_32768 (S754_finite s m e))
  = wrap_int16 (cond_Zopp s (Z.shiftl (Zpos m) (e + 15))).
Proof.
  intros Hb. destruct (binary32_bounds _ _ Hb) as [Hd He].
  rewrite times_32768_finite by assumption.
  rewrite <- signed16_wrap. unfold ToInt16, signed16.
  rewrite widen_shift by lia. reflexivity.
Qed.

Lemma cond_Zopp_mul s a b : cond_Zopp s a * b = cond_Zopp s (a * b).
Proof. destruct s; simpl; lia. Qed.

Lemma quot_cond_Zopp s a b :
  0 <= a -> 0 < b -> Z.quot (cond_Zopp s a) b = cond_Zopp s (a / b).
Proof.
  intros Ha Hb. rewrite <- (Z.quot_div_nonneg a b) by lia.
  destruct s; simpl; [apply Z.quot_opp_l; lia | reflexivity].
Qed.

Lemma shiftl_scaled m e :
  Z.shiftl (Zpos m) (e + 15) = Z.shiftl (Zpos m * 32768) e.
Proof.
  replace (e + 15) with (15 + e) by lia.
  rewrite <- (Z.shiftl_shiftl (Zpos m) 15 e) by lia.
  now rewrite (Z.shiftl_mul_pow2 (Zpos m) 15) by lia.
Qed.

(** Rounding the rational [s * 32768] toward zero is a shift of the
    mantissa. *)
Lemma round_toward_zero_scaled s m e :
  round_toward_zero (sample_value (S754_finite s m e) * (32768 # 1))
  = cond_Zopp s (Z.shiftl (Zpos m) (e + 15)).
Proof.
  rewrite shiftl_scaled.
  unfold round_toward_zero, sample_value.
  destruct e as [|p|p]; cbn [Qmult Qnum Qden].
  - rewrite Pos.mul_1_r, Z.quot_1_r, cond_Zopp_mul. reflexivity.
  - rewrite Pos.mul_1_r, Z.quot_1_r, !cond_Zopp_mul.
    rewrite Z.shiftl_mul_pow2 by lia. f_equal. lia.
  - rewrite Pos.mul_1_r, cond_Zopp_mul, Pos2Z.inj_pow.
    rewrite quot_cond_Zopp by lia.
    change (Z.neg p) with (- Z.pos p).
    rewrite Z.shiftl_div_pow2 by lia. rewrite Z.opp_involutive. reflexivity.
Qed.

Lemma spec_pcm16_finite s m e :
  spec_pcm16 (S754_finite s m e)
  = wrap_int16 (cond_Zopp s (Z.shiftl (Zpos m) (e + 15))).
Proof. unfold spec_pcm16. now rewrite round_toward_zero_scaled. Qed.

(** The stored element is the specified one, sample by sample. *)
Lemma ToInt16_is_spec x :
  finite_sample x = true -> ToInt16 (times_32768 x) = spec_pcm16 x.
Proof.
  destruct x as [s|s| |s m e]; cbn [finite_sample]; intros H; try discriminate.
  - reflexivity.
  - rewrite spec_pcm16_finite. now apply ToInt16_scaled.
Qed.

Lemma wrap_int16_range n : -32768 <= wrap_int16 n <= 32767.
Proof. unfold wrap_int16. Z.div_mod_to_equations. lia. Qed.

Lemma wrap_int16_congruent n : (wrap_int16 n - n) mod 65536 = 0.
Proof. unfold wrap_int16. Z.div_mod_to_equations. lia. Qed.

(** ** The bytes of an element *)

Lemma int16_bytes_little_endian v :
  int16_bytes LittleEndian v = spec_le_bytes v.
Proof.
  unfold int16_bytes, spec_le_bytes.
  change 65535 with (Z.ones 16). change 255 with (Z.ones 8).
  rewrite !Z.land_ones by lia. rewrite Z.shiftr_div_pow2 by lia.
  change (2 ^ 16) with 65536. change (2 ^ 8) with 256.
  f_equal; [|f_equal]; f_equal; Z.div_mod_to_equations; lia.
Qed.

Lemma int16_bytes_length order v : length (int16_bytes order v) = 2%nat.
Proof. destruct order; reflexivity. Qed.

Lemma buffer_bytes_length order int16 :
  length (buffer_bytes order int16) = (2 * length int16)%nat.
Proof.
  unfold buffer_bytes. induction int16 as [|v l IH]; [reflexivity|].
  cbn [flat_map]. rewrite length_app, int16_bytes_length, IH. simpl. lia.
Qed.

Lemma to_int16_spec samples :
  Forall (fun x => finite_sample x = true) samples ->
  to_int16 samples = map spec_pcm16 samples.
Proof.
  unfold to_int16. induction 1 as [|x l Hx _ IH]; [reflexivity|].
  cbn [map]. now rewrite IH, ToInt16_is_spec.
Qed.

Local Close Scope Z_scope.

(** ** The encoder *)

Lemma decode_rfc4648_encode (octets : list byte) :
  rfc4648_decode (rfc4648_encode octets) = Some octets.
Proof. rewrite <- btoa_units_rfc4648. apply decode_btoa_units. Qed.

Lemma createBlob_normal order samples :
  createBlob order samples
  = Normal {| data := rfc4648_encode (buffer_bytes order (to_int16 samples));
              mimeType := js "audio/pcm;rate=16000" |}.
Proof. unfold createBlob. now rewrite encode_rfc4648. Qed.

Lemma buffer_bytes_spec samples :
  Forall (fun x => finite_sample x = true) samples ->
  buffer_bytes LittleEndian (to_int16 samples)
  = flat_map (fun x => spec_le_bytes (spec_pcm16 x)) samples.
Proof.
  intros H. rewrite (to_int16_spec H). unfold buffer_bytes.
  clear H. induction samples as [|x l IH]; [reflexivity|].
  cbn [map flat_map]. now rewrite IH, int16_bytes_little_endian.
Qed.

(** C10. [encode] returns, for every byte sequence, the Base64 text that
    RFC 4648 defines for it (alphabet of section 4, [=] padding); it never
    throws. *)
Theorem encode_matches_rfc4648 (octets : list byte) :
  encode octets = Normal (rfc4648_encode octets).
Proof. apply encode_rfc4648. Qed.

(** C5. For every sample sequence, on either byte order, [createBlob]
    returns (it does not throw) a blob with the fixed MIME descriptor whose
    payload Base64-decodes to exactly twice as many bytes as there are
    samples; for the empty frame the payload is the empty string.
    [createBlob] is a function of the samples and the byte order alone: it
    reads and writes no state. *)
Theorem createBlob_payload_decodes (order : Endianness) (samples : Float32Array) :
  (exists payload octets,
      createBlob order samples
      = Normal {| data := payload; mimeType := js "audio/pcm;rate=16000" |}
      /\ rfc4648_decode payload = Some octets
      /\ length octets = (2 * length samples)%nat)
  /\ createBlob order []
     = Normal {| data := []; mimeType := js "audio/pcm;rate=16000" |}.
Proof.
  split.
  - exists (rfc4648_encode (buffer_bytes order (to_int16 samples))).
    exists (buffer_bytes order (to_int16 samples)).
    split; [apply createBlob_normal|].
    split; [apply decode_rfc4648_encode|].
    rewrite buffer_bytes_length. unfold to_int16. now rewrite length_map.
  - apply createBlob_normal.
Qed.

(** C4. For finite binary32 samples, each element stored by [createBlob] is
    the sample times 32768, rounded toward zero and wrapped into the signed
    16-bit range, with no clamping (the sample 1.0 becomes -32768); on a
    little-endian platform the bytes handed to Base64 are the two's
    complement little-endian bytes of these values, in sample order. *)
Theorem createBlob_pcm16_wraps (samples : Float32Array) :
  Forall (fun x => finite_sample x = true) samples ->
  to_int16 samples = map spec_pcm16 samples
  /\ buffer_bytes LittleEndian (to_int16 samples)
     = flat_map (fun x => spec_le_bytes (spec_pcm16 x)) samples
  /\ createBlob LittleEndian samples
     = Normal
         {| data := rfc4648_encode
                      (flat_map (fun x => spec_le_bytes (spec_pcm16 x)) samples);
            mimeType := js "audio/pcm;rate=16000" |}
  /\ (forall x, -32768 <= spec_pcm16 x <= 32767)%Z
  /\ to_int16 [sample_one] = [(-32768)%Z].
Proof.
  intros H.
  split; [now apply to_int16_spec|].
  split; [now apply buffer_bytes_spec|].
  split; [rewrite createBlob_normal; now rewrite buffer_bytes_spec|].
  split; [intros x; apply wrap_int16_range | reflexivity].
Qed.

Lemma createBlob_pcm16_wraps_witness :
  Forall (fun x => finite_sample x = true)
         [sample_one; sample_minus_half; sample_small]
  /\ to_int16 [sample_one; sample_minus_half; sample_small]
     = map spec_pcm16 [sample_one; sample_minus_half; sample_small].
Proof.
  assert (H : Forall (fun x => finite_sample x = true)
                     [sample_one; sample_minus_half; sample_small]).
  { repeat constructor. }
  split; [exact H|].
  apply (createBlob_pcm16_wraps H).
Defined.

(** ** Blank strings *)

Lemma non_blankb_spec s : non_blankb s = true <-> non_blank s.
Proof.
  unfold non_blankb, non_blank. rewrite existsb_exists.
  split; intros [c [Hin Hc]]; exists c; split; auto.
  - now apply negb_true_iff.
  - now apply negb_true_iff.
Qed.

Lemma truthy_rev (s : jsstring) : truthy (rev s) = truthy s.
Proof.
  destruct s as [|c r]; [reflexivity|].
  simpl. destruct (rev r ++ [c]) eqn:E; [|reflexivity].
  now apply app_eq_nil in E.
Qed.

Lemma truthy_trimStart s : truthy (trimStart s) = non_blankb s.
Proof.
  induction s as [|c r IH]; [reflexivity|].
  unfold non_blankb in *. simpl.
  destruct (is_white_space c); simpl; auto.
Qed.

Lemma non_blankb_trimStart s : non_blankb (trimStart s) = non_blankb s.
Proof.
  induction s as [|c r IH]; [reflexivity|].
  unfold non_blankb in *. simpl.
  destruct (is_white_space c) eqn:E; simpl.
  - exact IH.
  - now rewrite E.
Qed.

Lemma non_blankb_rev s : non_blankb (rev s) = non_blankb s.
Proof.
  unfold non_blankb. induction s as [|c r IH]; [reflexivity|].
  simpl. rewrite existsb_app, IH. simpl.
  now rewrite orb_false_r, orb_comm.
Qed.

(** [s.trim()] is truthy exactly when [s] holds a character that is not
    white space. *)
Lemma truthy_trim s : truthy (trim s) = non_blankb s.
Proof.
  unfold trim, trimEnd.
  now rewrite truthy_rev, truthy_trimStart, non_blankb_rev, non_blankb_trimStart.
Qed.

Lemma non_blank_truthy s : non_blankb s = true -> truthy s = true.
Proof. destruct s; [discriminate | reflexivity]. Qed.

(** ** Case analysis over the handlers *)

Ltac innermost x :=
  lazymatch x with
  | context [match _ with _ => _ end] => fail
  | _ => idtac
  end.

(** Case analysis on what the handlers test, innermost test first; a test
    met before is answered from its recorded equation. *)
Ltac case_step :=
  match goal with
  | H : ?x = _ |- context [match ?x with _ => _ end] => rewrite H
  | |- context [match ?x with _ => _ end] => innermost x; destruct x eqn:?
  end.

Ltac simpl_state := cbn -[js createBlob trim commit_partial setHistory].

Ltac cases := repeat (simpl_state; case_step); simpl_state.

(** ** What [setHistory] and [commit_partial] leave alone *)

Ltac frame_proof :=
  unfold commit_partial, clear_transcripts, setHistory;
  repeat (cbn -[js]; case_step); reflexivity.

Lemma setHistory_streamRef P u s :
  streamRef (setHistory P u s) = streamRef s.
Proof. frame_proof. Qed.
Lemma setHistory_scriptProcessorRef P u s :
  scriptProcessorRef (setHistory P u s) = scriptProcessorRef s.
Proof. frame_proof. Qed.
Lemma setHistory_audioContextRef P u s :
  audioContextRef (setHistory P u s) = audioContextRef s.
Proof. frame_proof. Qed.
Lemma setHistory_sessionPromiseRef P u s :
  sessionPromiseRef (setHistory P u s) = sessionPromiseRef s.
Proof. frame_proof. Qed.
Lemma setHistory_effects P u s : effects (setHistory P u s) = effects s.
Proof. frame_proof. Qed.
Lemma setHistory_error P u s : error (setHistory P u s) = error s.
Proof. frame_proof. Qed.
Lemma setHistory_isRecording P u s :
  isRecording (setHistory P u s) = isRecording s.
Proof. frame_proof. Qed.
Lemma setHistory_isConnecting P u s :
  isConnecting (setHistory P u s) = isConnecting s.
Proof. frame_proof. Qed.
Lemma setHistory_isProcessingFile P u s :
  isProcessingFile (setHistory P u s) = isProcessingFile s.
Proof. frame_proof. Qed.
Lemma setHistory_userTranscript P u s :
  userTranscript (setHistory P u s) = userTranscript s.
Proof. frame_proof. Qed.
Lemma setHistory_malayalamTranslation P u s :
  malayalamTranslation (setHistory P u s) = malayalamTranslation s.
Proof. frame_proof. Qed.
Lemma setHistory_currentInput P u s :
  currentInputTranscriptionRef (setHistory P u s)
  = currentInputTranscriptionRef s.
Proof. frame_proof. Qed.
Lemma setHistory_currentOutput P u s :
  currentOutputTranscriptionRef (setHistory P u s)
  = currentOutputTranscriptionRef s.
Proof. frame_proof. Qed.

Lemma commit_partial_streamRef P s :
  streamRef (commit_partial P s) = streamRef s.
Proof. frame_proof. Qed.
Lemma commit_partial_scriptProcessorRef P s :
  scriptProcessorRef (commit_partial P s) = scriptProcessorRef s.
Proof. frame_proof. Qed.
Lemma commit_partial_audioContextRef P s :
  audioContextRef (commit_partial P s) = audioContextRef s.
Proof. frame_proof. Qed.
Lemma commit_partial_sessionPromiseRef P s :
  sessionPromiseRef (commit_partial P s) = sessionPromiseRef s.
Proof. frame_proof. Qed.
Lemma commit_partial_effects P s : effects (commit_partial P s) = effects s.
Proof. frame_proof. Qed.
Lemma commit_partial_error P s : error (commit_partial P s) = error s.
Proof. frame_proof. Qed.
Lemma commit_partial_isRecording P s :
  isRecording (commit_partial P s) = isRecording s.
Proof. frame_proof. Qed.
Lemma commit_partial_isConnecting P s :
  isConnecting (commit_partial P s) = isConnecting s.
Proof. frame_proof. Qed.
Lemma commit_partial_isProcessingFile P s :
  isProcessingFile (commit_partial P s) = isProcessingFile s.
Proof. frame_proof. Qed.

Create Rewrite HintDb frame.
#[export] Hint Rewrite
  setHistory_streamRef setHistory_scriptProcessorRef
  setHistory_audioContextRef setHistory_sessionPromiseRef setHistory_effects
  setHistory_error setHistory_isRecording setHistory_isConnecting
  setHistory_isProcessingFile setHistory_userTranscript
  setHistory_malayalamTranslation setHistory_currentInput
  setHistory_currentOutput
  commit_partial_streamRef commit_partial_scriptProcessorRef
  commit_partial_audioContextRef commit_partial_sessionPromiseRef
  commit_partial_effects commit_partial_error commit_partial_isRecording
  commit_partial_isConnecting commit_partial_isProcessingFile : frame.

(** [commit_partial] always empties the accumulators and their mirrors. *)
Lemma commit_partial_clears P s :
  let s' := commit_partial P s in
  userTranscript s' = [] /\ malayalamTranslation s' = []
  /\ currentInputTranscriptionRef s' = []
  /\ currentOutputTranscriptionRef s' = [].
Proof. cbn. auto. Qed.

(** With empty accumulators [commit_partial] changes nothing but the
    mirrors. *)
Lemma commit_partial_idle P s :
  currentInputTranscriptionRef s = [] ->
  currentOutputTranscriptionRef s = [] ->
  commit_partial P s = clear_transcripts s.
Proof. unfold commit_partial. intros -> ->. reflexivity. Qed.

(** ** [release_resources] and [stopRecording] *)

Ltac unfold_release :=
  unfold release_resources, and_then, close_context, close_session,
    disconnect_processor, stop_tracks, AudioContext_close, log.

Lemma release_never_throws s e s' : release_resources s <> Threw e s'.
Proof. unfold_release. cases; discriminate. Qed.

(** [release_resources] returns unless it awaits a promise that never
    settles. *)
Lemma release_returns s :
  (forall p, sessionPromiseRef s = Some p -> settles p <> NeverSettles) ->
  exists s1, release_resources s = Returned s1.
Proof.
  intros H. unfold_release. cases; eauto.
  all: match goal with
       | Hp : settles ?p = NeverSettles |- _ => now destruct (H p)
       end.
Qed.

Lemma release_releases s s1 :
  graph_consistent s = true ->
  release_resources s = Returned s1 ->
  handles_released s1.
Proof.
  unfold graph_consistent, handles_released. unfold_release.
  cases; intros Hwf H; try discriminate; injection H as <-; cbn; auto.
Qed.

(** [release_resources] touches the flags, the four handles and the trace,
    nothing else. *)
Lemma release_frame s :
  let s1 := state_of (release_resources s) in
  isRecording s1 = false /\ isConnecting s1 = false
  /\ isProcessingFile s1 = isProcessingFile s
  /\ userTranscript s1 = userTranscript s
  /\ malayalamTranslation s1 = malayalamTranslation s
  /\ history s1 = history s
  /\ pendingHistory s1 = pendingHistory s
  /\ error s1 = error s
  /\ currentInputTranscriptionRef s1 = currentInputTranscriptionRef s
  /\ currentOutputTranscriptionRef s1 = currentOutputTranscriptionRef s.
Proof.
  unfold_release. cases; repeat split; reflexivity.
Qed.

Lemma stopRecording_never_throws P s e s' : stopRecording P s <> Threw e s'.
Proof.
  unfold stopRecording, and_then.
  destruct (release_resources s) eqn:E; try discriminate.
  now apply release_never_throws in E.
Qed.

Lemma stopRecording_returns P s :
  (forall p, sessionPromiseRef s = Some p -> settles p <> NeverSettles) ->
  exists s1, stopRecording P s = Returned s1.
Proof.
  intros H. destruct (release_returns s H) as [s1 E].
  unfold stopRecording. rewrite E. cbn. eauto.
Qed.

Lemma stopRecording_inv P s s2 :
  stopRecording P s = Returned s2 ->
  exists s1, release_resources s = Returned s1 /\ s2 = commit_partial P s1.
Proof.
  unfold stopRecording, and_then.
  destruct (release_resources s) as [s1|e s1|s1]; try discriminate.
  intros H. injection H as <-. eauto.
Qed.

Lemma stopRecording_releases P s s2 :
  graph_consistent s = true ->
  stopRecording P s = Returned s2 ->
  handles_released s2.
Proof.
  intros Hwf H. apply stopRecording_inv in H. destruct H as (s1 & E & ->).
  pose proof (release_releases s Hwf E) as Hr.
  unfold handles_released in *. autorewrite with frame. exact Hr.
Qed.

Lemma stopRecording_cleared P s s2 :
  stopRecording P s = Returned s2 ->
  isRecording s2 = false /\ isConnecting s2 = false
  /\ userTranscript s2 = [] /\ malayalamTranslation s2 = []
  /\ currentInputTranscriptionRef s2 = []
  /\ currentOutputTranscriptionRef s2 = [].
Proof.
  intros H. apply stopRecording_inv in H. destruct H as (s1 & E & ->).
  pose proof (release_frame s) as F. rewrite E in F. cbn [state_of] in F.
  destruct F as (F1 & F2 & _).
  autorewrite with frame. repeat split; auto.
Qed.

Lemma stopRecording_twice P s s1 :
  stopRecording P s = Returned s1 ->
  handles_released s1 ->
  stopRecording P s1 = Returned s1.
Proof.
  unfold handles_released. intros H (H1 & H2 & H3 & H4).
  apply stopRecording_cleared in H.
  destruct H as (F1 & F2 & F3 & F4 & F5 & F6).
  destruct s1. cbn in *. subst.
  reflexivity.
Qed.

(** ** Invariants of the component *)

Lemma sent_frames_eq s : sent_frames s = sends (effects s).
Proof. reflexivity. Qed.

Lemma sends_app es es' : sends (es ++ es') = sends es ++ sends es'.
Proof. apply flat_map_app. Qed.

Lemma sends_tracks (l : list nat) : sends (map TrackStop l) = [].
Proof. induction l as [|t l IH]; [reflexivity | exact IH]. Qed.

Ltac frames :=
  rewrite ?sent_frames_eq; autorewrite with frame;
  cbn -[js sends createBlob trim commit_partial setHistory];
  autorewrite with frame;
  rewrite ?sends_app, ?sends_tracks; cbn [sends flat_map app];
  rewrite ?app_nil_r; try reflexivity.

Ltac unfold_inv := unfold invariant, graph_consistent, stale_flags.

Lemma invariant_commit_partial P s :
  invariant (commit_partial P s) = invariant s.
Proof. unfold_inv. now autorewrite with frame. Qed.

Lemma invariant_setHistory P u s :
  invariant (setHistory P u s) = invariant s.
Proof. unfold_inv. now autorewrite with frame. Qed.

Lemma release_invariant s :
  invariant s = true -> invariant (state_of (release_resources s)) = true.
Proof.
  unfold_inv. unfold_release.
  cases; intros H; try discriminate; try reflexivity; try assumption.
  all: apply andb_true_iff in H; destruct H as [H _]; now rewrite H.
Qed.

Lemma release_sent s :
  sent_frames (state_of (release_resources s)) = sent_frames s.
Proof. unfold_release. cases; frames. Qed.

Lemma state_of_stopRecording P s :
  state_of (stopRecording P s)
  = match release_resources s with
    | Returned s1 => commit_partial P s1
    | o => state_of o
    end.
Proof.
  unfold stopRecording, and_then. now destruct (release_resources s).
Qed.

Lemma stopRecording_invariant P s :
  invariant s = true ->
  invariant (state_of (stopRecording P s)) = true
  /\ sent_frames (state_of (stopRecording P s)) = sent_frames s.
Proof.
  intros H. rewrite state_of_stopRecording.
  pose proof (release_invariant s H) as Hi.
  pose proof (release_sent s) as Hs.
  destruct (release_resources s) as [s1|e s1|s1]; cbn [state_of] in *.
  - rewrite invariant_commit_partial. split; [exact Hi|].
    rewrite <- Hs. frames.
  - now split.
  - now split.
Qed.

Lemma stopRecording_after_set_error P e es s :
  invariant s = true ->
  let s' := state_of (stopRecording P (set_error e (log es s))) in
  invariant s' = true /\ sent_frames s' = sent_frames s ++ sends es.
Proof.
  intros H s'.
  assert (H' : invariant (set_error e (log es s)) = true) by exact H.
  destruct (stopRecording_invariant P _ H') as [H1 H2].
  split; [exact H1|]. subst s'. rewrite H2.
  unfold log. frames.
Qed.

Ltac bools :=
  repeat match goal with
         | H : _ && _ = true |- _ =>
             apply andb_true_iff in H; destruct H
         end;
  repeat match goal with
         | H : ?b = true |- context [?b] => rewrite H
         end;
  try reflexivity.

Lemma startRecording_invariant env s :
  invariant s = true ->
  invariant (startRecording false env s) = true
  /\ sent_frames (startRecording false env s) = sent_frames s.
Proof.
  unfold_inv. unfold startRecording, start_failed, log.
  cases; intros H; try discriminate; split; try assumption; frames; bools.
Qed.

Lemma invariant_ext s s' :
  sessionPromiseRef s' = sessionPromiseRef s ->
  scriptProcessorRef s' = scriptProcessorRef s ->
  audioContextRef s' = audioContextRef s ->
  invariant s' = invariant s.
Proof. unfold_inv. now intros -> -> ->. Qed.

Ltac fields :=
  repeat (progress (simpl_state; autorewrite with frame)).

(** [onmessage] and [handleFileUpload] touch neither the handles nor the
    trace of frames. *)
Lemma onmessage_frame P m s :
  let s' := onmessage P m s in
  sessionPromiseRef s' = sessionPromiseRef s
  /\ scriptProcessorRef s' = scriptProcessorRef s
  /\ audioContextRef s' = audioContextRef s
  /\ streamRef s' = streamRef s
  /\ effects s' = effects s.
Proof.
  unfold onmessage, on_turnComplete, on_outputTranscription,
    on_inputTranscription, clear_transcripts.
  cases; fields; auto.
Qed.

Lemma onmessage_invariant P m s :
  invariant s = true ->
  invariant (onmessage P m s) = true
  /\ sent_frames (onmessage P m s) = sent_frames s.
Proof.
  intros H. destruct (onmessage_frame P m s) as (H1 & H2 & H3 & _ & H5).
  split.
  - now rewrite (invariant_ext s _ H1 H2 H3).
  - unfold sent_frames. now rewrite H5.
Qed.

Lemma handleFileUpload_frame P f s :
  let s' := handleFileUpload P f s in
  sessionPromiseRef s' = sessionPromiseRef s
  /\ scriptProcessorRef s' = scriptProcessorRef s
  /\ audioContextRef s' = audioContextRef s
  /\ streamRef s' = streamRef s
  /\ sends (effects s') = sends (effects s).
Proof.
  unfold handleFileUpload, upload_failed, log.
  cases; fields; repeat split; try reflexivity; frames.
Qed.

Lemma handleFileUpload_invariant P f s :
  invariant s = true ->
  invariant (handleFileUpload P f s) = true
  /\ sent_frames (handleFileUpload P f s) = sent_frames s.
Proof.
  intros H. destruct (handleFileUpload_frame P f s) as (H1 & H2 & H3 & _ & H5).
  split.
  - now rewrite (invariant_ext s _ H1 H2 H3).
  - exact H5.
Qed.

Lemma onopen_invariant p s :
  invariant s = true ->
  sessionPromiseRef s = Some p ->
  invariant (state_of (onopen p s)) = true
  /\ sent_frames (state_of (onopen p s)) = sent_frames s.
Proof.
  unfold_inv. unfold onopen. intros H Hp. rewrite Hp in H. revert H.
  cases; intros H; try discriminate; split; try reflexivity; rewrite ?Hp;
    cbn; bools.
Qed.

Lemma audio_invariant P node inputData s :
  invariant s = true ->
  scriptProcessorRef s = Some node ->
  let s' := match onaudioprocess P node inputData s with
            | Normal (Some k) => send_continuation P k s
            | _ => s
            end in
  invariant s' = true /\ sent_frames s' = sent_frames s.
Proof.
  intros H Hn.
  assert (Hflag : handler_isRecording node = false).
  { revert H. unfold_inv. rewrite Hn.
    destruct (handler_isRecording node); [|reflexivity].
    intros H. apply andb_true_iff in H. destruct H as [_ H].
    apply andb_true_iff in H. destruct H as [_ H]. discriminate. }
  unfold onaudioprocess.
  destruct (createBlob (byteOrder P) inputData) as [blob|e]; [|now split].
  destruct (sessionPromiseRef s) as [p|]; [|now split].
  unfold send_continuation. cbn [awaited isRecording_captured pcmBlob].
  rewrite Hflag.
  destruct (settles p); [now split| |now split].
  unfold send_failed.
  destruct (stopRecording_after_set_error P
              (Some (js "Failed to send audio data. Please try again."))
              [ConsoleError (js "Error sending audio data:")] s H) as [H1 H2].
  split; [exact H1|]. rewrite H2. cbn. apply app_nil_r.
Qed.

Lemma step_invariant P ev s :
  invariant s = true ->
  invariant (step P ev s) = true /\ sent_frames (step P ev s) = sent_frames s.
Proof.
  intros H. destruct ev as [env| |m|m| |inputData|f| |]; cbn [step].
  - unfold handleToggleRecording.
    destruct (isRecording s).
    + now apply stopRecording_invariant.
    + now apply startRecording_invariant.
  - destruct (sessionPromiseRef s) as [p|] eqn:Hp; [|now split].
    now apply onopen_invariant.
  - now apply onmessage_invariant.
  - unfold onerror.
    destruct (stopRecording_after_set_error P
                (Some (js "An error occurred: "
                       ++ or_else m (js "Unknown error")
                       ++ js ". Please try again."))
                [ConsoleError (js "Session error:")] s H) as [H1 H2].
    split; [exact H1|]. rewrite H2. cbn. apply app_nil_r.
  - now split.
  - destruct (scriptProcessorRef s) as [node|] eqn:Hn; [|now split].
    now apply audio_invariant.
  - now apply handleFileUpload_invariant.
  - split; [exact H | reflexivity].
  - now apply stopRecording_invariant.
Qed.

Lemma run_invariant P evs s :
  invariant s = true ->
  invariant (run P evs s) = true /\ sent_frames (run P evs s) = sent_frames s.
Proof.
  revert s. induction evs as [|ev evs IH]; intros s H; [now split|].
  cbn [run fold_left]. destruct (step_invariant P ev s H) as [H1 H2].
  destruct (IH _ H1) as [H3 H4]. split; [exact H3|].
  unfold run in H4. now rewrite H4.
Qed.

Lemma reachable_invariant P s : reachable P s -> invariant s = true.
Proof.
  induction 1 as [|ev s _ IH]; [reflexivity|].
  now apply step_invariant.
Qed.

(** ** History, as the next render shows it *)

Lemma render_settled s :
  pendingHistory s = [] -> history (render s) = history s.
Proof. unfold render. intros ->. reflexivity. Qed.

Lemma render_setHistory_record P r s :
  pendingHistory s = [] ->
  history (render (clear_transcripts (setHistory P (AppendRecord r) s)))
  = history s ++ [r].
Proof.
  intros Hq. unfold setHistory. rewrite Hq.
  destruct (runs_updater_now P s); unfold render, clear_transcripts; cbn;
    now rewrite ?Hq.
Qed.

(** A render reads the queue and, for [AppendRefs], the two refs. *)
Lemma render_history_ext s s' :
  history s' = history s ->
  pendingHistory s' = pendingHistory s ->
  currentInputTranscriptionRef s' = currentInputTranscriptionRef s ->
  currentOutputTranscriptionRef s' = currentOutputTranscriptionRef s ->
  history (render s') = history (render s).
Proof.
  unfold render. cbn. intros -> -> Hi Ho.
  generalize (history s). induction (pendingHistory s) as [|u q IH];
    intros h; [reflexivity|].
  cbn [fold_left]. rewrite <- IH. f_equal.
  destruct u; cbn; [reflexivity|]. now rewrite Hi, Ho.
Qed.

Lemma transcription_frame c s :
  let s1 := on_outputTranscription c (on_inputTranscription c s) in
  history s1 = history s /\ pendingHistory s1 = pendingHistory s.
Proof.
  unfold on_outputTranscription, on_inputTranscription.
  cases; auto.
Qed.

Lemma non_blank_or i o :
  truthy (trim i) || truthy (trim o) = true <-> non_blank i \/ non_blank o.
Proof.
  rewrite !truthy_trim, orb_true_iff, !non_blankb_spec. reflexivity.
Qed.

(** C2. On a message whose [turnComplete] is set, with the accumulators as
    they stand once the transcriptions of the same message are appended:
    a record holding the two accumulators is appended to the history exactly
    when one of them has a character that is not white space, and in either
    case both accumulators and both mirrors end up empty. History is read
    after the next render; the component has no updater pending when the
    message arrives. *)
Theorem turn_complete_commits_iff_non_blank P c s :
  turnComplete c = true ->
  pendingHistory s = [] ->
  let at_turn := on_outputTranscription c (on_inputTranscription c s) in
  let fullInput := currentInputTranscriptionRef at_turn in
  let fullOutput := currentOutputTranscriptionRef at_turn in
  let s' := onmessage P {| serverContent := Some c |} s in
  (non_blank fullInput \/ non_blank fullOutput ->
   history (render s')
   = history s ++ [ {| user := fullInput; translation := fullOutput |} ])
  /\ (~ (non_blank fullInput \/ non_blank fullOutput) ->
      history (render s') = history s)
  /\ currentInputTranscriptionRef s' = []
  /\ currentOutputTranscriptionRef s' = []
  /\ userTranscript s' = []
  /\ malayalamTranslation s' = [].
Proof.
  intros Htc Hq at_turn fullInput fullOutput s'.
  destruct (transcription_frame c s) as [Hh Hp].
  fold at_turn in Hh, Hp. rewrite Hq in Hp.
  assert (Hs' : s' = on_turnComplete P c at_turn) by reflexivity.
  unfold on_turnComplete in Hs'. rewrite Htc in Hs'.
  fold fullInput fullOutput in Hs'.
  pose proof (non_blank_or fullInput fullOutput) as Hnb.
  destruct (truthy (trim fullInput) || truthy (trim fullOutput)).
  - assert (Hr : history (render s')
                 = history s
                   ++ [ {| user := fullInput; translation := fullOutput |} ]).
    { rewrite <- Hh, Hs'. now apply render_setHistory_record. }
    repeat split; try (rewrite Hs'; reflexivity).
    + intros _. exact Hr.
    + intros Hn. exfalso. apply Hn, Hnb. reflexivity.
  - repeat split; try (rewrite Hs'; reflexivity).
    + intros Hn. apply Hnb in Hn. discriminate.
    + intros _. rewrite Hs'. unfold render, clear_transcripts. cbn.
      now rewrite Hp, Hh.
Qed.

Lemma turn_complete_commits_iff_non_blank_witness :
  turnComplete hello_turn = true
  /\ pendingHistory initial = []
  /\ history
       (render (onmessage deferred_platform
                          {| serverContent := Some hello_turn |} initial))
     = [ {| user := js "hello"; translation := [] |} ].
Proof.
  split; [reflexivity|]. split; [reflexivity|].
  destruct (@turn_complete_commits_iff_non_blank
              deferred_platform hello_turn initial eq_refl eq_refl)
    as [Hcommit _].
  apply Hcommit. left. apply non_blankb_spec. reflexivity.
Defined.

(** ** What [stopRecording] commits *)

(** The record [stopRecording] commits holds the accumulators when React ran
    the updater at once, and two empty strings when React ran it at the next
    render, after the accumulators were emptied. *)
Lemma commit_partial_history P s :
  pendingHistory s = [] ->
  history (render (commit_partial P s))
  = if truthy (currentInputTranscriptionRef s)
       || truthy (currentOutputTranscriptionRef s)
    then history s
         ++ [ if runs_updater_now P s
              then {| user := currentInputTranscriptionRef s;
                      translation := currentOutputTranscriptionRef s |}
              else blank_record ]
    else history s.
Proof.
  intros Hq. unfold commit_partial, setHistory. rewrite Hq.
  destruct (truthy (currentInputTranscriptionRef s)
            || truthy (currentOutputTranscriptionRef s)).
  - destruct (runs_updater_now P s); unfold render, clear_transcripts; cbn;
      now rewrite ?Hq.
  - unfold render, clear_transcripts. cbn. now rewrite Hq.
Qed.

Lemma release_session_none s s1 :
  release_resources s = Returned s1 ->
  sessionPromiseRef s1 = None /\ streamRef s1 = None.
Proof.
  unfold_release. cases; intros H; try discriminate; injection H as <-;
    cbn; auto.
Qed.

Lemma release_stream_none s : streamRef (state_of (release_resources s)) = None.
Proof. unfold_release. cases; try reflexivity; assumption. Qed.

Lemma stopRecording_state_frame P s :
  let s' := state_of (stopRecording P s) in
  isRecording s' = false /\ isConnecting s' = false
  /\ streamRef s' = None /\ error s' = error s
  /\ isProcessingFile s' = isProcessingFile s.
Proof.
  cbn zeta. rewrite state_of_stopRecording.
  pose proof (release_frame s) as F. pose proof (release_stream_none s) as G.
  cbn zeta in F. destruct F as (F1 & F2 & F3 & _ & _ & _ & _ & F8 & _).
  destruct (release_resources s) as [s1|e s1|s1]; cbn [state_of] in *;
    autorewrite with frame; auto.
Qed.

(** ** The streaming handlers *)

Lemma send_continuation_failed P k s :
  send_fails k -> send_continuation P k s = send_failed P s.
Proof.
  unfold send_continuation.
  intros [H | (session & H & Hc & Ht)]; rewrite H; [reflexivity|].
  now rewrite Hc, Ht.
Qed.

(** C8. A frame send that fails (the session promise is rejected, or the
    guarded [sendRealtimeInput] throws) is handled as [onerror] handles a
    session error: an error message is set and [stopRecording] runs on the
    resulting state; the message survives the teardown, the recording and
    connecting flags are off and the stream is released. *)
Theorem failed_send_triggers_teardown P k s :
  send_fails k ->
  let s' := send_continuation P k s in
  s' = state_of
         (stopRecording P
            (set_error (Some send_error_message)
               (log [ConsoleError (js "Error sending audio data:")] s)))
  /\ error s' = Some send_error_message
  /\ isRecording s' = false
  /\ isConnecting s' = false
  /\ streamRef s' = None
  /\ forall message,
       onerror P message s
       = state_of
           (stopRecording P
              (set_error
                 (Some (js "An error occurred: "
                        ++ or_else message (js "Unknown error")
                        ++ js ". Please try again."))
                 (log [ConsoleError (js "Session error:")] s))).
Proof.
  intros Hf s'. subst s'. rewrite (send_continuation_failed P s Hf).
  unfold send_failed. fold send_error_message.
  match goal with
  | |- context [stopRecording P ?x] =>
      destruct (stopRecording_state_frame P x) as (F1 & F2 & F3 & F4 & _)
  end.
  repeat split; auto.
Qed.

Lemma failed_send_triggers_teardown_witness :
  send_fails rejected_send
  /\ error (send_continuation deferred_platform rejected_send initial)
     = Some send_error_message.
Proof.
  assert (H : send_fails rejected_send) by (left; reflexivity).
  split; [exact H|].
  apply (@failed_send_triggers_teardown deferred_platform rejected_send initial H).
Defined.

(** C6. In every state the component can reach, [stopRecording] never
    throws and returns unless it awaits a session promise that never
    settles; once it has returned, the stream, processor, context and
    session handles are all null and a second [stopRecording] returns the
    same state; on the initial state (no prior start) it returns the state
    unchanged; each of the four release steps leaves the state alone when
    its handle is null. The two awaits of [stopRecording] are taken without
    another handler running in between. *)
Theorem stop_is_idempotent P s :
  reachable P s ->
  (forall e s', stopRecording P s <> Threw e s')
  /\ ((forall p, sessionPromiseRef s = Some p -> settles p <> NeverSettles) ->
      exists s1, stopRecording P s = Returned s1)
  /\ (forall s1,
        stopRecording P s = Returned s1 ->
        handles_released s1 /\ stopRecording P s1 = Returned s1)
  /\ stopRecording P initial = Returned initial
  /\ (streamRef s = None -> stop_tracks s = s)
  /\ (scriptProcessorRef s = None -> disconnect_processor s = s)
  /\ (audioContextRef s = None -> close_context s = Returned s)
  /\ (sessionPromiseRef s = None -> close_session s = Returned s).
Proof.
  intros Hr. apply reachable_invariant in Hr.
  unfold invariant in Hr. apply andb_true_iff in Hr. destruct Hr as [Hg _].
  split; [|split; [|split; [|split]]].
  - intros e s'. apply stopRecording_never_throws.
  - apply stopRecording_returns.
  - intros s1 H. pose proof (stopRecording_releases P s Hg H) as Hrel.
    split; [exact Hrel|]. now apply (stopRecording_twice P s).
  - reflexivity.
  - unfold stop_tracks, disconnect_processor, close_context, close_session.
    repeat split; intros ->; reflexivity.
Qed.

Lemma stop_is_idempotent_witness :
  reachable deferred_platform
            (step deferred_platform (Click microphone_granted) initial)
  /\ forall e s',
       stopRecording deferred_platform
         (step deferred_platform (Click microphone_granted) initial)
       <> Threw e s'.
Proof.
  assert (H : reachable deferred_platform
                (step deferred_platform (Click microphone_granted) initial)).
  { apply reachable_step, reachable_initial. }
  split; [exact H|].
  apply (stop_is_idempotent H).
Defined.

(** C1. The send of a frame is guarded by the constant [isRecording] of the
    [startRecording] that created the handler, and that constant is [false]
    whenever [handleToggleRecording] starts a recording: no sequence of
    events makes the component hand a frame to the session. In particular,
    after start (microphone granted, session fulfilled), open and a render,
    with [isRecording] set and the session promise held, a delivered frame
    is encoded and dropped. *)
Theorem frames_are_never_sent P :
  (forall evs, sent_frames (run P evs initial) = [])
  /\ forall stream session inputData,
       let start := {| getUserMedia := Granted stream;
                       client := Connects (Fulfilled session) |} in
       let s := run P [Click start; SessionOpened; Rendered;
                       AudioProcess inputData] initial in
       isRecording s = true
       /\ sessionPromiseRef s
          = Some {| settles := Fulfilled session;
                    callbacks_isRecording := false |}
       /\ scriptProcessorRef s = Some {| handler_isRecording := false |}
       /\ (exists blob, createBlob (byteOrder P) inputData = Normal blob)
       /\ sent_frames s = [].
Proof.
  split.
  - intros evs.
    destruct (run_invariant P evs initial eq_refl) as [_ H]. exact H.
  - intros stream session inputData start s.
    set (before := run P [Click start; SessionOpened; Rendered] initial).
    assert (Hrec : isRecording before = true) by reflexivity.
    assert (Hp : sessionPromiseRef before
                 = Some {| settles := Fulfilled session;
                           callbacks_isRecording := false |}) by reflexivity.
    assert (Hn : scriptProcessorRef before
                 = Some {| handler_isRecording := false |}) by reflexivity.
    assert (Hblob : exists blob, createBlob (byteOrder P) inputData = Normal blob).
    { eexists. apply createBlob_normal. }
    assert (Hstep : s = before).
    { subst s. change (step P (AudioProcess inputData) before = before).
      cbn [step]. rewrite Hn. unfold onaudioprocess.
      rewrite createBlob_normal, Hp. unfold send_continuation. reflexivity. }
    rewrite Hstep. clearbody before.
    split; [exact Hrec|]. split; [exact Hp|]. split; [exact Hn|].
    split; [exact Hblob|].
    rewrite <- Hstep.
    destruct (run_invariant P
                [Click start; SessionOpened; Rendered; AudioProcess inputData]
                initial eq_refl) as [_ H]. exact H.
Qed.

Lemma blank_not_non_blank s : non_blankb s = false -> ~ non_blank s.
Proof. intros H Hn. apply non_blankb_spec in Hn. congruence. Qed.

(** C3. [stopRecording] tests the accumulators for emptiness, not for
    blankness: with a pending input of one space and no output, stop appends
    one record to the history although neither accumulator holds a character
    that is not white space, and the record it appends is blank (the space
    when React ran the updater at once, two empty strings when React ran it
    at the next render, after the accumulators were emptied). *)
Theorem stop_commits_blank_partial P stream session :
  let start := {| getUserMedia := Granted stream;
                  client := Connects (Fulfilled session) |} in
  let space :=
    {| serverContent :=
         Some {| inputTranscription := Some {| text := Some (js " ") |};
                 outputTranscription := None;
                 turnComplete := false |} |} in
  let before := run P [Click start; SessionOpened; SessionMessage space] initial in
  let after := run P [Click start; Rendered] before in
  currentInputTranscriptionRef before = js " "
  /\ currentOutputTranscriptionRef before = []
  /\ ~ non_blank (currentInputTranscriptionRef before)
  /\ ~ non_blank (currentOutputTranscriptionRef before)
  /\ history before = []
  /\ exists r,
       history after = [r] /\ ~ non_blank (user r) /\ ~ non_blank (translation r).
Proof.
  intros start space before after.
  assert (Hi : currentInputTranscriptionRef before = js " ") by reflexivity.
  assert (Ho : currentOutputTranscriptionRef before = []) by reflexivity.
  assert (Hh : history before = []) by reflexivity.
  assert (Hq : pendingHistory before = []) by reflexivity.
  assert (Hrec : isRecording before = true) by reflexivity.
  assert (Hp : sessionPromiseRef before
               = Some {| settles := Fulfilled session;
                         callbacks_isRecording := false |}) by reflexivity.
  assert (Ha : after = render (state_of (stopRecording P before))).
  { subst after. unfold run. cbn [fold_left step].
    unfold handleToggleRecording. now rewrite Hrec. }
  clearbody before after. subst after.
  rewrite Hi, Ho.
  assert (Hblank : forall r,
             r = {| user := js " "; translation := [] |} \/ r = blank_record ->
             ~ non_blank (user r) /\ ~ non_blank (translation r)).
  { intros r [-> | ->]; split; apply blank_not_non_blank; reflexivity. }
  split; [reflexivity|].
  split; [reflexivity|].
  split; [apply blank_not_non_blank; reflexivity|].
  split; [apply blank_not_non_blank; reflexivity|].
  split; [exact Hh|].
  rewrite state_of_stopRecording.
  destruct (release_returns before) as [s1 Hrel].
  { intros p. rewrite Hp. intros E. injection E as <-. discriminate. }
  pose proof (release_frame before) as F. rewrite Hrel in F. cbn [state_of] in F.
  destruct F as (_ & _ & _ & _ & _ & F6 & F7 & _ & F9 & F10).
  rewrite Hrel.
  rewrite (commit_partial_history P s1) by congruence.
  rewrite F6, F9, F10, Hi, Ho, Hh. cbn [truthy js orb].
  eexists. split; [reflexivity|].
  apply Hblank. destruct (runs_updater_now P s1); auto.
Qed.

(** ** One-shot file transcription *)

(** C7. One-shot file transcription, once the response text has arrived and
    with no updater pending: when the parsed reply has a field with a
    character that is not white space, exactly one record
    [{user: transcription, translation: translation}] is appended and both
    fields are mirrored, with no error; when both fields are empty, or
    [JSON.parse] throws, the history is unchanged and an error message is
    set. *)
Theorem file_transcription_outcomes P text s :
  pendingHistory s = [] ->
  let s' := handleFileUpload P (Some (Responded text)) s in
  (forall result,
      JSON_parse P (trim text) = Normal result ->
      non_blank (Reply.transcription result)
      \/ non_blank (Reply.translation result) ->
      history (render s')
      = history s ++ [ {| user := Reply.transcription result;
                          translation := Reply.translation result |} ]
      /\ userTranscript s' = Reply.transcription result
      /\ malayalamTranslation s' = Reply.translation result
      /\ error s' = None)
  /\ (forall result,
         JSON_parse P (trim text) = Normal result ->
         Reply.transcription result = [] ->
         Reply.translation result = [] ->
         history (render s') = history s
         /\ error s'
            = Some (js "Failed to process audio file: Received empty transcription/translation."))
  /\ (forall e,
         JSON_parse P (trim text) = Throw e ->
         history (render s') = history s /\ error s' <> None).
Proof.
  intros Hq s'. subst s'. unfold handleFileUpload.
  split; [|split].
  - intros result Hparse Hnb. rewrite Hparse.
    assert (Ht : truthy (Reply.transcription result)
                 || truthy (Reply.translation result) = true).
    { apply orb_true_iff.
      destruct Hnb as [H|H]; [left|right];
        now apply non_blank_truthy, non_blankb_spec. }
    rewrite Ht. unfold setHistory. cbn. rewrite Hq.
    destruct (runs_updater_now P _); unfold render; cbn; rewrite ?Hq;
      repeat split; reflexivity.
  - intros result Hparse H1 H2. rewrite Hparse, H1, H2.
    unfold render, upload_failed. cbn -[js]. rewrite Hq.
    split; reflexivity.
  - intros e Hparse. rewrite Hparse.
    destruct e; unfold render, upload_failed; cbn -[js]; rewrite Hq;
      split; try reflexivity; discriminate.
Qed.

Lemma file_transcription_outcomes_witness :
  pendingHistory initial = []
  /\ history
       (render (handleFileUpload replying_platform
                                 (Some (Responded (js "{}"))) initial))
     = [ {| user := js "hi"; translation := js "navi" |} ].
Proof.
  split; [reflexivity|].
  destruct (@file_transcription_outcomes
              replying_platform (js "{}") initial eq_refl)
    as [Hok _].
  apply (Hok {| Reply.transcription := js "hi"; Reply.translation := js "navi" |}).
  - reflexivity.
  - left. apply non_blankb_spec. reflexivity.
Defined.

(** ** A frame send that completes after [stopRecording] *)

(** C9, amended. A frame-send continuation that runs on a state returned by
    [stopRecording] changes neither the accumulators, nor their mirrors, nor
    the history (rendered or pending), nor the recording and connecting
    flags. When the send fails it sets the error message and runs
    [stopRecording] again, which returns; otherwise the state is unchanged
    but for the frame handed to the session when the captured flag is set.
    Only the send is guarded by a flag; the failure path is not. *)
Theorem late_send_after_stop P k s0 s :
  stopRecording P s0 = Returned s ->
  let s' := send_continuation P k s in
  currentInputTranscriptionRef s' = currentInputTranscriptionRef s
  /\ currentOutputTranscriptionRef s' = currentOutputTranscriptionRef s
  /\ userTranscript s' = userTranscript s
  /\ malayalamTranslation s' = malayalamTranslation s
  /\ history s' = history s
  /\ pendingHistory s' = pendingHistory s
  /\ isRecording s' = isRecording s
  /\ isConnecting s' = isConnecting s
  /\ (send_fails k ->
      error s' = Some send_error_message
      /\ exists s2,
           stopRecording P
             (set_error (Some send_error_message)
                (log [ConsoleError (js "Error sending audio data:")] s))
           = Returned s2 /\ s' = s2)
  /\ (~ send_fails k ->
      s' = s \/ s' = log [SendRealtimeInput (pcmBlob k)] s).
Proof.
  intros Hstop s'.
  destruct (stopRecording_cleared P s0 Hstop) as (C1 & C2 & C3 & C4 & C5 & C6).
  destruct (stopRecording_inv P s0 Hstop) as (s1 & Hrel & Hs).
  destruct (release_session_none s0 Hrel) as [Hsess _].
  assert (Hsess' : sessionPromiseRef s = None).
  { rewrite Hs. now autorewrite with frame. }
  (* the failure path: stop again, on a state that has nothing to commit *)
  set (x := set_error (Some send_error_message)
              (log [ConsoleError (js "Error sending audio data:")] s)).
  destruct (@stopRecording_returns P x) as [s2 Hx].
  { intros p Hp. unfold x in Hp. cbn in Hp. congruence. }
  destruct (stopRecording_inv P x Hx) as (x1 & Hxrel & Hs2).
  pose proof (release_frame x) as F. rewrite Hxrel in F. cbn [state_of] in F.
  destruct F as (F1 & F2 & F3 & F4 & F5 & F6 & F7 & F8 & F9 & F10).
  cbn in F4, F5, F6, F7, F8, F9, F10.
  rewrite C5 in F9. rewrite C6 in F10.
  rewrite (commit_partial_idle P x1 F9 F10) in Hs2.
  assert (Hfail : send_failed P s = s2).
  { unfold send_failed. fold send_error_message. fold x. now rewrite Hx. }
  assert (Hfacts : currentInputTranscriptionRef s2 = currentInputTranscriptionRef s
                   /\ currentOutputTranscriptionRef s2 = currentOutputTranscriptionRef s
                   /\ userTranscript s2 = userTranscript s
                   /\ malayalamTranslation s2 = malayalamTranslation s
                   /\ history s2 = history s
                   /\ pendingHistory s2 = pendingHistory s
                   /\ isRecording s2 = isRecording s
                   /\ isConnecting s2 = isConnecting s
                   /\ error s2 = Some send_error_message).
  { rewrite Hs2. unfold clear_transcripts. cbn.
    rewrite C1, C2, C3, C4, C5, C6, F1, F2, F6, F7, F8. repeat split. }
  assert (Hfailed :
            send_fails k ->
            currentInputTranscriptionRef s2 = currentInputTranscriptionRef s
            /\ currentOutputTranscriptionRef s2 = currentOutputTranscriptionRef s
            /\ userTranscript s2 = userTranscript s
            /\ malayalamTranslation s2 = malayalamTranslation s
            /\ history s2 = history s
            /\ pendingHistory s2 = pendingHistory s
            /\ isRecording s2 = isRecording s
            /\ isConnecting s2 = isConnecting s
            /\ (send_fails k ->
                error s2 = Some send_error_message
                /\ exists s3, stopRecording P x = Returned s3 /\ s2 = s3)
            /\ (~ send_fails k -> s2 = s \/ s2 = log [SendRealtimeInput (pcmBlob k)] s)).
  { intros Hf.
    destruct Hfacts as (G1 & G2 & G3 & G4 & G5 & G6 & G7 & G8 & G9).
    do 8 (split; [assumption|]). split.
    - intros _. split; [exact G9|]. exists s2. now split.
    - intros Hn. destruct (Hn Hf). }
  assert (Hquiet : forall t,
            t = s \/ t = log [SendRealtimeInput (pcmBlob k)] s ->
            ~ send_fails k ->
            currentInputTranscriptionRef t = currentInputTranscriptionRef s
            /\ currentOutputTranscriptionRef t = currentOutputTranscriptionRef s
            /\ userTranscript t = userTranscript s
            /\ malayalamTranslation t = malayalamTranslation s
            /\ history t = history s
            /\ pendingHistory t = pendingHistory s
            /\ isRecording t = isRecording s
            /\ isConnecting t = isConnecting s
            /\ (send_fails k ->
                error t = Some send_error_message
                /\ exists s3, stopRecording P x = Returned s3 /\ t = s3)
            /\ (~ send_fails k -> t = s \/ t = log [SendRealtimeInput (pcmBlob k)] s)).
  { intros t Ht Hn. do 8 (split; [destruct Ht as [-> | ->]; reflexivity|]).
    split; [intros Hf; now destruct Hn | intros _; exact Ht]. }
  subst s'. unfold send_continuation.
  destruct (settles (awaited k)) as [session| |] eqn:Hk.
  - destruct (isRecording_captured k) eqn:Hc.
    + destruct (sendRealtimeInput_throws session) eqn:Ht.
      * rewrite Hfail. apply Hfailed. right. exists session. auto.
      * apply Hquiet; [now right|].
        intros [Hf | (se & Hf & _ & Hf')]; [congruence|].
        assert (se = session) by congruence. subst. congruence.
    + apply Hquiet; [now left|].
      intros [Hf | (se & _ & Hf & _)]; congruence.
  - rewrite Hfail. apply Hfailed. now left.
  - apply Hquiet; [now left|].
    intros [Hf | (se & Hf & _)]; congruence.
Qed.

Lemma late_send_after_stop_witness :
  stopRecording deferred_platform initial = Returned initial
  /\ history (send_continuation deferred_platform rejected_send initial)
     = history initial.
Proof.
  assert (H : stopRecording deferred_platform initial = Returned initial)
    by reflexivity.
  split; [exact H|].
  apply (@late_send_after_stop deferred_platform rejected_send initial initial H).
Defined.

(** C9 as stated fails: on the state [stopRecording] returns from the initial
    state, the continuation of a send whose session promise was rejected
    sets the error message. *)
Lemma late_rejected_send_sets_error :
  stopRecording deferred_platform initial = Returned initial
  /\ error initial = None
  /\ error (send_continuation deferred_platform rejected_send initial)
     = Some send_error_message.
Proof. repeat split. Qed.

(** ** More on [encode]: size and shape of the text *)

Lemma btoa_units_length l :
  length (btoa_units l) = (4 * ((length l + 2) / 3))%nat.
Proof.
  induction l as [|a|a b|a b c rest IH] using list_ind3; try reflexivity.
  cbn [btoa_units length]. rewrite IH.
  replace (S (S (S (length rest))) + 2)%nat
    with ((length rest + 2) + 1 * 3)%nat by lia.
  rewrite Nat.div_add by lia. lia.
Qed.

Lemma rfc4648_encode_length octets :
  length (rfc4648_encode octets) = (4 * ((length octets + 2) / 3))%nat.
Proof.
  rewrite <- btoa_units_rfc4648, btoa_units_length. now rewrite length_map.
Qed.

(** X1. The text [encode] returns has four characters for every three
    bytes, the last group counted in full; the payload of [createBlob]
    therefore has [4 * ceil(2n / 3)] characters for [n] samples. *)
Theorem encode_output_length (bytes : list byte)
        (order : Endianness) (samples : Float32Array) :
  (exists text,
      encode bytes = Normal text
      /\ length text = (4 * ((length bytes + 2) / 3))%nat)
  /\ exists blob,
       createBlob order samples = Normal blob
       /\ length (data blob) = (4 * ((2 * length samples + 2) / 3))%nat.
Proof.
  split.
  - exists (rfc4648_encode bytes).
    split; [apply encode_rfc4648 | apply rfc4648_encode_length].
  - eexists. split; [apply createBlob_normal|].
    cbn [data]. rewrite rfc4648_encode_length, buffer_bytes_length.
    unfold to_int16. now rewrite length_map.
Qed.

Lemma index_in_In c l i n : index_in c l i = Some n -> In c l.
Proof.
  revert i. induction l as [|x l IH]; intros i; cbn; [discriminate|].
  destruct (N.eqb_spec x c) as [->|_]; [now left|].
  intros H. right. exact (IH _ H).
Qed.

Lemma sextet_in_alphabet (x5 x4 x3 x2 x1 x0 : bool) :
  let c := b64_char (value_of_bits [x5; x4; x3; x2; x1; x0]) in
  In c alphabet /\ c <> pad.
Proof.
  intros c. destruct (sextet_index x5 x4 x3 x2 x1 x0) as [Hi Hp].
  split.
  - exact (index_in_In _ _ _ Hi).
  - now apply N.eqb_neq.
Qed.

Ltac symbols :=
  repeat (apply Forall_cons; [apply sextet_in_alphabet|]);
  try apply Forall_nil.

Lemma mod3_step n : (S (S (S n)) mod 3 = n mod 3)%nat.
Proof.
  replace (S (S (S n))) with (n + 1 * 3)%nat by lia.
  apply Nat.Div0.mod_add.
Qed.

Lemma btoa_units_shape (octets : list byte) :
  exists body,
    btoa_units (map Byte.to_N octets)
    = body ++ repeat pad ((3 - length octets mod 3) mod 3)
    /\ Forall symbol body.
Proof.
  induction octets as [|a|a b|a b c rest IH] using list_ind3.
  - exists []. split; [reflexivity | constructor].
  - cbn [map btoa_units]. rewrite octet_high6, quantum_2_final.
    eexists [_; _]. split; [reflexivity|].
    symbols.
  - cbn [map btoa_units]. rewrite octet_high6, quantum_2, quantum_3_final.
    eexists [_; _; _]. split; [reflexivity|].
    symbols.
  - destruct IH as (body & Hbody & Hall).
    cbn [map btoa_units]. fold (map Byte.to_N rest).
    rewrite octet_high6, quantum_2, quantum_3, octet_low6, Hbody.
    cbn [length]. rewrite mod3_step.
    eexists (_ :: _ :: _ :: _ :: body). split; [reflexivity|].
    symbols. exact Hall.
Qed.

(** X2. The text [encode] returns is made of characters of the Base64
    alphabet followed by as many [=] as bytes are missing from the last
    group of three: none, one or two. The padding character occurs nowhere
    else. *)
Theorem encode_output_shape (bytes : list byte) :
  exists body,
    encode bytes
    = Normal (body ++ repeat pad ((3 - length bytes mod 3) mod 3))
    /\ Forall (fun c => In c alphabet) body
    /\ ~ In pad body.
Proof.
  destruct (btoa_units_shape bytes) as (body & Hbody & Hall).
  exists body. split; [|split].
  - now rewrite encode_rfc4648, <- btoa_units_rfc4648, Hbody.
  - eapply Forall_impl; [|exact Hall]. now intros c [H _].
  - intros Hin. rewrite Forall_forall in Hall.
    destruct (Hall _ Hin) as [_ Hne]. now apply Hne.
Qed.

(** X3. [encode] loses nothing: decoding its text under RFC 4648 gives the
    bytes back, so two byte sequences with the same text are equal. *)
Theorem encode_decodes_back :
  (forall bytes,
      exists text,
        encode bytes = Normal text /\ rfc4648_decode text = Some bytes)
  /\ forall a b, encode a = encode b -> a = b.
Proof.
  split.
  - intros bytes. exists (rfc4648_encode bytes).
    split; [apply encode_rfc4648 | apply decode_rfc4648_encode].
  - intros a b. rewrite !encode_rfc4648. intros H.
    injection H as H.
    pose proof (decode_rfc4648_encode a) as Ha.
    rewrite H, decode_rfc4648_encode in Ha. now injection Ha.
Qed.

Lemma btoa_units_app (l l' : list N) :
  (length l mod 3 = 0)%nat ->
  btoa_units (l ++ l') = btoa_units l ++ btoa_units l'.
Proof.
  induction l as [|a|a b|a b c rest IH] using list_ind3; intros H.
  - reflexivity.
  - discriminate H.
  - discriminate H.
  - cbn [length] in H. rewrite mod3_step in H.
    cbn [app btoa_units]. now rewrite (IH H).
Qed.

(** X4. Encoding composes over concatenation at the boundaries of three
    bytes: when the length of [a] is a multiple of three, the text of
    [a ++ b] is the text of [a] followed by the text of [b]. *)
Theorem encode_concatenation (a b : list byte) :
  (length a mod 3 = 0)%nat ->
  exists ta tb,
    encode a = Normal ta /\ encode b = Normal tb
    /\ encode (a ++ b) = Normal (ta ++ tb).
Proof.
  intros H. exists (rfc4648_encode a), (rfc4648_encode b).
  split; [apply encode_rfc4648|]. split; [apply encode_rfc4648|].
  rewrite encode_rfc4648. f_equal.
  rewrite <- !btoa_units_rfc4648, map_app.
  apply btoa_units_app. now rewrite length_map.
Qed.

Lemma encode_concatenation_witness :
  (length [x66; x6f; x6f] mod 3 = 0)%nat
  /\ exists ta tb,
       encode [x66; x6f; x6f] = Normal ta /\ encode [x62] = Normal tb
       /\ encode ([x66; x6f; x6f] ++ [x62]) = Normal (ta ++ tb).
Proof.
  split; [reflexivity|].
  apply (@encode_concatenation [x66; x6f; x6f] [x62]). reflexivity.
Defined.

(** ** More on [createBlob]: samples at the edges *)

Local Open Scope Z_scope.

Lemma times_32768_non_finite x :
  non_finite x = true -> ToInt16 (times_32768 x) = 0.
Proof. destruct x as [s|s| |s m e]; try discriminate; [now destruct s | reflexivity]. Qed.

Lemma int16_bytes_zero order : int16_bytes order 0 = [x00; x00].
Proof. now destruct order. Qed.

Lemma flat_map_pairs_skipn (A : Type) (f : A -> list byte) (l : list A) i :
  (forall a, length (f a) = 2%nat) ->
  skipn (2 * i) (flat_map f l) = flat_map f (skipn i l).
Proof.
  intros Hf. revert l. induction i as [|i IH]; intros l; [reflexivity|].
  destruct l as [|a l]; [reflexivity|].
  cbn [flat_map skipn].
  replace (2 * S i)%nat with (length (f a) + 2 * i)%nat by (rewrite Hf; lia).
  rewrite skipn_app, skipn_all2 by lia.
  replace (length (f a) + 2 * i - length (f a))%nat with (2 * i)%nat by lia.
  cbn [app]. apply IH.
Qed.

(** X5. A sample that is NaN or an infinity is stored as 0: at its position
    the [Int16Array] holds 0 and the buffer holds two zero bytes, whatever
    the byte order and the other samples. *)
Theorem non_finite_sample_is_silence
        (order : Endianness) (samples : Float32Array) (i : nat) (x : spec_float) :
  nth_error samples i = Some x ->
  non_finite x = true ->
  nth_error (to_int16 samples) i = Some 0
  /\ firstn 2 (skipn (2 * i) (buffer_bytes order (to_int16 samples)))
     = [x00; x00].
Proof.
  intros Hn Hx.
  assert (H0 : nth_error (to_int16 samples) i = Some 0).
  { unfold to_int16. rewrite nth_error_map, Hn. cbn.
    now rewrite times_32768_non_finite. }
  split; [exact H0|].
  unfold buffer_bytes.
  rewrite flat_map_pairs_skipn by (intros; apply int16_bytes_length).
  destruct (nth_error_split _ _ H0) as (l1 & l2 & Hl & Hlen).
  rewrite Hl, <- Hlen, skipn_app, skipn_all, Nat.sub_diag.
  cbn [app skipn flat_map]. now rewrite int16_bytes_zero.
Qed.

Lemma non_finite_sample_is_silence_witness :
  nth_error [sample_one; S754_nan; S754_infinity true] 1 = Some S754_nan
  /\ non_finite S754_nan = true
  /\ nth_error (to_int16 [sample_one; S754_nan; S754_infinity true]) 1
     = Some 0.
Proof.
  split; [reflexivity|]. split; [reflexivity|].
  apply (@non_finite_sample_is_silence
           LittleEndian [sample_one; S754_nan; S754_infinity true] 1 S754_nan
           eq_refl eq_refl).
Defined.

Lemma wrap_int16_small n : -32768 <= n <= 32767 -> wrap_int16 n = n.
Proof. intros H. unfold wrap_int16. rewrite Z.mod_small; lia. Qed.

Lemma round_toward_zero_in_range (q : Q) :
  (-1 <= q)%Q -> (q < 1)%Q ->
  -32768 <= round_toward_zero (q * (32768 # 1)) <= 32767.
Proof.
  destruct q as [a d]. unfold Qle, Qlt, round_toward_zero. cbn.
  rewrite Pos.mul_1_r. intros Hlo Hhi.
  assert (Hd : 0 < Zpos d) by lia.
  destruct (Z.le_gt_cases 0 a) as [Ha|Ha].
  - rewrite Z.quot_div_nonneg by lia. split.
    + transitivity 0; [lia|]. apply Z.div_pos; lia.
    + enough (a * 32768 / Zpos d < 32768) by lia.
      apply Z.div_lt_upper_bound; lia.
  - replace (a * 32768) with (- (- a * 32768)) by lia.
    rewrite Z.quot_opp_l by lia.
    rewrite Z.quot_div_nonneg by lia. split.
    + enough (- a * 32768 / Zpos d <= 32768) by lia.
      apply Z.div_le_upper_bound; lia.
    + enough (0 <= - a * 32768 / Zpos d) by lia.
      apply Z.div_pos; lia.
Qed.

(** X6. A finite sample of value [v] with [-1 <= v < 1] is stored without
    wrap: the element is [v * 32768] cut toward zero, which lies in the
    signed 16-bit range. *)
Theorem in_range_sample_is_truncated (x : spec_float) :
  finite_sample x = true ->
  (-1 <= sample_value x)%Q ->
  (sample_value x < 1)%Q ->
  ToInt16 (times_32768 x)
  = round_toward_zero (sample_value x * (32768 # 1))
  /\ -32768 <= ToInt16 (times_32768 x) <= 32767.
Proof.
  intros Hf Hlo Hhi.
  pose proof (round_toward_zero_in_range Hlo Hhi) as Hr.
  rewrite (ToInt16_is_spec x Hf). unfold spec_pcm16.
  rewrite wrap_int16_small by exact Hr. split; [reflexivity | exact Hr].
Qed.

Lemma in_range_sample_is_truncated_witness :
  finite_sample sample_minus_half = true
  /\ (-1 <= sample_value sample_minus_half)%Q
  /\ (sample_value sample_minus_half < 1)%Q
  /\ ToInt16 (times_32768 sample_minus_half) = -16384.
Proof.
  assert (H1 : finite_sample sample_minus_half = true) by reflexivity.
  assert (H2 : (-1 <= sample_value sample_minus_half)%Q)
    by (unfold Qle; cbn; lia).
  assert (H3 : (sample_value sample_minus_half < 1)%Q)
    by (unfold Qlt; cbn; lia).
  split; [exact H1|]. split; [exact H2|]. split; [exact H3|].
  destruct (in_range_sample_is_truncated sample_minus_half H1 H2 H3) as [H _].
  rewrite H. reflexivity.
Defined.

Lemma wrap_int16_once n : 32768 <= n <= 65535 -> wrap_int16 n = n - 65536.
Proof.
  intros H. unfold wrap_int16.
  replace (n + 32768) with ((n - 65536 + 32768) + 1 * 65536) by lia.
  rewrite Z.mod_add by lia. rewrite Z.mod_small; lia.
Qed.

Lemma round_toward_zero_overdriven (q : Q) :
  (1 <= q)%Q -> (q < 2)%Q ->
  32768 <= round_toward_zero (q * (32768 # 1)) <= 65535.
Proof.
  destruct q as [a d]. unfold Qle, Qlt, round_toward_zero. cbn.
  rewrite Pos.mul_1_r. intros Hlo Hhi.
  rewrite Z.quot_div_nonneg by lia. split.
  - apply Z.div_le_lower_bound; lia.
  - enough (a * 32768 / Zpos d < 65536) by lia.
    apply Z.div_lt_upper_bound; lia.
Qed.

(** X7. Nothing is clamped: a finite sample of value [v] with [1 <= v < 2]
    is stored as [v * 32768] cut toward zero less 65536, a negative
    element. *)
Theorem overdriven_sample_wraps (x : spec_float) :
  finite_sample x = true ->
  (1 <= sample_value x)%Q ->
  (sample_value x < 2)%Q ->
  ToInt16 (times_32768 x)
  = round_toward_zero (sample_value x * (32768 # 1)) - 65536
  /\ -32768 <= ToInt16 (times_32768 x) < 0.
Proof.
  intros Hf Hlo Hhi.
  pose proof (round_toward_zero_overdriven Hlo Hhi) as Hr.
  rewrite (ToInt16_is_spec x Hf). unfold spec_pcm16.
  rewrite wrap_int16_once by exact Hr. split; [reflexivity | lia].
Qed.

Lemma overdriven_sample_wraps_witness :
  finite_sample sample_one = true
  /\ (1 <= sample_value sample_one)%Q
  /\ (sample_value sample_one < 2)%Q
  /\ ToInt16 (times_32768 sample_one) = -32768.
Proof.
  assert (H1 : finite_sample sample_one = true) by reflexivity.
  assert (H2 : (1 <= sample_value sample_one)%Q) by (unfold Qle; cbn; lia).
  assert (H3 : (sample_value sample_one < 2)%Q) by (unfold Qlt; cbn; lia).
  split; [exact H1|]. split; [exact H2|]. split; [exact H3|].
  destruct (overdriven_sample_wraps sample_one H1 H2 H3) as [H _].
  rewrite H. reflexivity.
Defined.

(** ** Reading the payload back *)

Lemma ToInt16_range x : -32768 <= ToInt16 x <= 32767.
Proof.
  destruct x as [s|s| |s m e]; cbn [ToInt16]; try lia.
  set (n := cond_Zopp s (Z.shiftl (Zpos m) e)).
  pose proof (Z.mod_pos_bound n 65536 eq_refl).
  destruct (Z.leb_spec 32768 (n mod 65536)); lia.
Qed.

Lemma to_N_octet_of_N n : (n < 256)%N -> Byte.to_N (octet_of_N n) = n.
Proof.
  intros H. unfold octet_of_N. rewrite N.mod_small by exact H.
  destruct (Byte.of_N n) as [b|] eqn:E.
  - now apply Byte.to_of_N.
  - apply Byte.of_N_None_iff in E. lia.
Qed.

Lemma to_N_octet_of_Z z :
  0 <= z < 256 -> Z.of_N (Byte.to_N (octet_of_Z z)) = z.
Proof.
  intros H. unfold octet_of_Z. rewrite to_N_octet_of_N by lia. lia.
Qed.

Lemma read_int16_bytes order v :
  -32768 <= v <= 32767 ->
  read_int16s order (int16_bytes order v) = [v].
Proof.
  intros Hv.
  assert (Hu : Z.land v 65535 = v mod 65536).
  { change 65535 with (Z.ones 16). now rewrite Z.land_ones by lia. }
  assert (Hlo : Z.land (v mod 65536) 255 = (v mod 65536) mod 256).
  { change 255 with (Z.ones 8). now rewrite Z.land_ones by lia. }
  assert (Hhi : Z.shiftr (v mod 65536) 8 = (v mod 65536) / 256).
  { now rewrite Z.shiftr_div_pow2 by lia. }
  pose proof (Z.mod_pos_bound v 65536 eq_refl) as Hb.
  pose proof (Z.mod_pos_bound (v mod 65536) 256 eq_refl) as Hb1.
  assert (Hb2 : 0 <= (v mod 65536) / 256 < 256).
  { split; [apply Z.div_pos; lia | apply Z.div_lt_upper_bound; lia]. }
  assert (Hsum : (v mod 65536) mod 256 + 256 * ((v mod 65536) / 256)
                 = v mod 65536).
  { pose proof (Z.div_mod (v mod 65536) 256). lia. }
  assert (Hs : signed16 (v mod 65536) = v).
  { rewrite signed16_wrap. unfold wrap_int16.
    rewrite Zplus_mod_idemp_l.
    rewrite Z.mod_small; lia. }
  unfold int16_bytes. rewrite Hu, Hlo, Hhi.
  destruct order; cbn [read_int16s read_int16];
    rewrite !to_N_octet_of_Z by assumption; now rewrite Hsum, Hs.
Qed.

Lemma read_int16s_buffer order (int16 : list Z) :
  Forall (fun v => -32768 <= v <= 32767) int16 ->
  read_int16s order (buffer_bytes order int16) = int16.
Proof.
  induction 1 as [|v l Hv _ IH]; [reflexivity|].
  unfold buffer_bytes. cbn [flat_map]. fold (buffer_bytes order l).
  pose proof (read_int16_bytes order Hv) as Hr.
  unfold int16_bytes in *.
  destruct order; cbn [app read_int16s] in *;
    injection Hr as Hr; now rewrite Hr, IH.
Qed.

(** X8. The payload of [createBlob] carries the quantized samples: decoded
    from Base64 and read two bytes at a time in the byte order of the
    platform that encoded them, it gives back the [Int16Array] the loop
    filled, sample for sample. *)
Theorem payload_reads_back_as_samples
        (order : Endianness) (samples : Float32Array) :
  exists payload octets,
    createBlob order samples
    = Normal {| data := payload; mimeType := js "audio/pcm;rate=16000" |}
    /\ rfc4648_decode payload = Some octets
    /\ read_int16s order octets = to_int16 samples
    /\ length (to_int16 samples) = length samples.
Proof.
  exists (rfc4648_encode (buffer_bytes order (to_int16 samples))).
  exists (buffer_bytes order (to_int16 samples)).
  split; [apply createBlob_normal|].
  split; [apply decode_rfc4648_encode|].
  split.
  - apply read_int16s_buffer. unfold to_int16.
    apply Forall_map, Forall_forall. intros x _. apply ToInt16_range.
  - unfold to_int16. apply length_map.
Qed.

Local Close Scope Z_scope.

(** ** [fileToBase64]: the data URL and its payload *)

Lemma split_without_separator sep s :
  Forall (fun c => c <> sep) s -> split sep s = [s].
Proof.
  induction 1 as [|c s Hc _ IH]; [reflexivity|].
  cbn [split]. destruct (N.eqb_spec c sep) as [E|_]; [contradiction|].
  now rewrite IH.
Qed.

Lemma split_at_separator sep s r :
  Forall (fun c => c <> sep) s -> split sep (s ++ sep :: r) = s :: split sep r.
Proof.
  induction 1 as [|c s Hc _ IH]; cbn [app split].
  - now rewrite N.eqb_refl.
  - destruct (N.eqb_spec c sep) as [E|_]; [contradiction|].
    now rewrite IH.
Qed.

Lemma without_comma_dec (s : jsstring) :
  forallb (fun c => negb (c =? comma)%N) s = true ->
  Forall (fun c => c <> comma) s.
Proof.
  intros H. apply Forall_forall. intros c Hc.
  rewrite forallb_forall in H. specialize (H c Hc).
  apply negb_true_iff in H. now apply N.eqb_neq.
Qed.

Lemma symbol_is_no_comma c : symbol c -> c <> comma.
Proof.
  intros [Hin _] ->.
  assert (H : Forall (fun c => c <> comma) alphabet)
    by (apply without_comma_dec; reflexivity).
  rewrite Forall_forall in H. now apply (H _ Hin).
Qed.

Lemma rfc4648_encode_without_comma octets :
  Forall (fun c => c <> comma) (rfc4648_encode octets).
Proof.
  destruct (btoa_units_shape octets) as (body & Hbody & Hall).
  rewrite <- btoa_units_rfc4648, Hbody. apply Forall_app. split.
  - eapply Forall_impl; [|exact Hall]. exact symbol_is_no_comma.
  - apply Forall_forall. intros c Hc. apply repeat_spec in Hc. now subst c.
Qed.

(** X9. [fileToBase64] resolves with what stands between the first and the
    second comma of the data URL: the whole payload when the payload holds
    no comma, and nothing of what follows a second comma. *)
Theorem fileToBase64_takes_payload (header payload more : jsstring) :
  Forall (fun c => c <> comma) header ->
  Forall (fun c => c <> comma) payload ->
  fileToBase64 (Loaded (header ++ comma :: payload)) = Normal (Some payload)
  /\ fileToBase64 (Loaded (header ++ comma :: payload ++ comma :: more))
     = Normal (Some payload).
Proof.
  intros Hh Hp. unfold fileToBase64. fold comma. split.
  - now rewrite (split_at_separator _ Hh), (split_without_separator Hp).
  - now rewrite (split_at_separator _ Hh), (split_at_separator _ Hp).
Qed.

Lemma fileToBase64_takes_payload_witness :
  Forall (fun c => c <> comma) (js "data:audio/ogg;base64")
  /\ Forall (fun c => c <> comma) (js "T2dnUw==")
  /\ fileToBase64 (Loaded (js "data:audio/ogg;base64,T2dnUw=="))
     = Normal (Some (js "T2dnUw==")).
Proof.
  assert (Hh : Forall (fun c => c <> comma) (js "data:audio/ogg;base64"))
    by (apply without_comma_dec; reflexivity).
  assert (Hp : Forall (fun c => c <> comma) (js "T2dnUw=="))
    by (apply without_comma_dec; reflexivity).
  split; [exact Hh|]. split; [exact Hp|].
  exact (proj1 (@fileToBase64_takes_payload
                  (js "data:audio/ogg;base64") (js "T2dnUw==") [] Hh Hp)).
Defined.

(** X10. For a data URL made of a header without comma, a comma and the
    Base64 text of the file, [fileToBase64] resolves with a string that
    decodes to the bytes of the file. *)
Theorem fileToBase64_keeps_the_file (header : jsstring) (bytes : list byte) :
  Forall (fun c => c <> comma) header ->
  exists base64Data,
    fileToBase64 (Loaded (header ++ comma :: rfc4648_encode bytes))
    = Normal (Some base64Data)
    /\ rfc4648_decode base64Data = Some bytes.
Proof.
  intros Hh. exists (rfc4648_encode bytes). split.
  - unfold fileToBase64. fold comma.
    now rewrite (split_at_separator _ Hh),
      (split_without_separator (rfc4648_encode_without_comma bytes)).
  - apply decode_rfc4648_encode.
Qed.

Lemma fileToBase64_keeps_the_file_witness :
  Forall (fun c => c <> comma) (js "data:audio/ogg;base64")
  /\ exists base64Data,
       fileToBase64
         (Loaded (js "data:audio/ogg;base64"
                  ++ comma :: rfc4648_encode [x4f; x67; x67; x53]))
       = Normal (Some base64Data)
       /\ rfc4648_decode base64Data = Some [x4f; x67; x67; x53].
Proof.
  assert (Hh : Forall (fun c => c <> comma) (js "data:audio/ogg;base64"))
    by (apply without_comma_dec; reflexivity).
  split; [exact Hh|].
  exact (@fileToBase64_keeps_the_file
           (js "data:audio/ogg;base64") [x4f; x67; x67; x53] Hh).
Defined.

(** X11. When the result of the read holds no comma, [fileToBase64] does not
    reject: it resolves with [undefined]. *)
Theorem fileToBase64_without_comma (result : jsstring) :
  Forall (fun c => c <> comma) result ->
  fileToBase64 (Loaded result) = Normal None.
Proof.
  intros H. unfold fileToBase64. fold comma.
  now rewrite (split_without_separator H).
Qed.

Lemma fileToBase64_without_comma_witness :
  Forall (fun c => c <> comma) (js "data:")
  /\ fileToBase64 (Loaded (js "data:")) = Normal None.
Proof.
  assert (H : Forall (fun c => c <> comma) (js "data:"))
    by (apply without_comma_dec; reflexivity).
  split; [exact H|].
  exact (@fileToBase64_without_comma (js "data:") H).
Defined.

(** ** The microphone and the recording flag *)

Lemma mic_follows_flag_ext s s' :
  isRecording s' = isRecording s ->
  streamRef s' = streamRef s ->
  mic_follows_flag s' = mic_follows_flag s.
Proof. unfold mic_follows_flag. now intros -> ->. Qed.

Lemma stopRecording_mic P s :
  mic_follows_flag (state_of (stopRecording P s)) = true.
Proof.
  destruct (stopRecording_state_frame P s) as (H1 & _ & H3 & _).
  unfold mic_follows_flag. now rewrite H1, H3.
Qed.

Lemma onmessage_flags P m s :
  let s' := onmessage P m s in
  isRecording s' = isRecording s
  /\ isConnecting s' = isConnecting s
  /\ isProcessingFile s' = isProcessingFile s
  /\ error s' = error s.
Proof.
  unfold onmessage, on_turnComplete, on_outputTranscription,
    on_inputTranscription, clear_transcripts.
  cases; fields; auto.
Qed.

Lemma handleFileUpload_flags P f s :
  let s' := handleFileUpload P f s in
  isRecording s' = isRecording s
  /\ isConnecting s' = isConnecting s
  /\ currentInputTranscriptionRef s' = currentInputTranscriptionRef s
  /\ currentOutputTranscriptionRef s' = currentOutputTranscriptionRef s.
Proof.
  unfold handleFileUpload, upload_failed, log.
  cases; fields; auto.
Qed.

Lemma startRecording_mic c env s :
  isRecording s = false ->
  mic_follows_flag s = true ->
  mic_follows_flag (startRecording c env s) = true.
Proof.
  unfold mic_follows_flag, startRecording, start_failed, log.
  intros Hr. rewrite Hr. cases; intros H; rewrite ?Hr; try assumption;
    try reflexivity; try discriminate.
Qed.

Lemma send_continuation_mic P k s :
  mic_follows_flag s = true ->
  mic_follows_flag (send_continuation P k s) = true.
Proof.
  intros H. unfold send_continuation, send_failed.
  destruct (settles (awaited k)) as [session| |]; try assumption.
  - destruct (isRecording_captured k); [|assumption].
    destruct (sendRealtimeInput_throws session); [|assumption].
    apply stopRecording_mic.
  - apply stopRecording_mic.
Qed.

Lemma step_mic P ev s :
  mic_follows_flag s = true -> mic_follows_flag (step P ev s) = true.
Proof.
  intros H. destruct ev as [env| |m|m| |inputData|f| |]; cbn [step].
  - unfold handleToggleRecording. destruct (isRecording s) eqn:Hr.
    + apply stopRecording_mic.
    + now apply startRecording_mic.
  - destruct (sessionPromiseRef s) as [p|]; [|assumption].
    unfold onopen. cbn. destruct (streamRef s) eqn:Hs; cbn; exact H.
  - destruct (onmessage_flags P m s) as (H1 & _).
    destruct (onmessage_frame P m s) as (_ & _ & _ & H4 & _).
    now rewrite (mic_follows_flag_ext s _ H1 H4).
  - apply stopRecording_mic.
  - assumption.
  - destruct (scriptProcessorRef s) as [node|]; [|assumption].
    unfold onaudioprocess.
    destruct (createBlob (byteOrder P) inputData); [|assumption].
    destruct (sessionPromiseRef s); [|assumption].
    now apply send_continuation_mic.
  - destruct (handleFileUpload_flags P f s) as (H1 & _).
    destruct (handleFileUpload_frame P f s) as (_ & _ & _ & H4 & _).
    now rewrite (mic_follows_flag_ext s _ H1 H4).
  - exact H.
  - apply stopRecording_mic.
Qed.

(** X12. In every state the component can reach, the recording flag is set
    exactly when a microphone stream is held: the microphone is never live
    behind a control that shows the idle state, and every path that lowers
    the flag has stopped and dropped the stream. *)
Theorem microphone_held_iff_recording P s :
  reachable P s ->
  (isRecording s = true <-> streamRef s <> None).
Proof.
  intros Hr.
  assert (H : mic_follows_flag s = true).
  { induction Hr as [|ev s _ IH]; [reflexivity | now apply step_mic]. }
  unfold mic_follows_flag in H.
  destruct (isRecording s), (streamRef s); try discriminate; split;
    congruence.
Qed.

Lemma microphone_held_iff_recording_witness :
  reachable deferred_platform
            (step deferred_platform (Click microphone_granted) initial)
  /\ (isRecording (step deferred_platform (Click microphone_granted) initial)
      = true
      <-> streamRef (step deferred_platform (Click microphone_granted) initial)
          <> None).
Proof.
  assert (H : reachable deferred_platform
                (step deferred_platform (Click microphone_granted) initial))
    by (apply reachable_step, reachable_initial).
  split; [exact H|].
  exact (@microphone_held_iff_recording deferred_platform _ H).
Defined.

(** ** The history only grows *)

Lemma extends_refl (A : Type) (h : list A) : extends h h.
Proof. exists []. now rewrite app_nil_r. Qed.

Lemma extends_trans (A : Type) (h1 h2 h3 : list A) :
  extends h1 h2 -> extends h2 h3 -> extends h1 h3.
Proof.
  intros [l1 ->] [l2 ->]. exists (l1 ++ l2). now rewrite app_assoc.
Qed.

Lemma extends_same (A : Type) (h h' : list A) : h' = h -> extends h h'.
Proof. intros ->. apply extends_refl. Qed.

Lemma run_updater_extends u s h : extends h (run_updater u s h).
Proof. destruct u; cbn; now eexists. Qed.

Lemma render_extends s : extends (history s) (history (render s)).
Proof.
  unfold render. cbn.
  generalize (history s). induction (pendingHistory s) as [|u q IH]; intros h.
  - apply extends_refl.
  - cbn [fold_left].
    eapply extends_trans; [apply (run_updater_extends u s)|apply IH].
Qed.

Lemma setHistory_extends P u s :
  extends (history s) (history (setHistory P u s)).
Proof.
  unfold setHistory.
  destruct (pendingHistory s); [destruct (runs_updater_now P s)|]; cbn;
    try apply extends_refl.
  apply run_updater_extends.
Qed.

Lemma commit_partial_extends P s :
  extends (history s) (history (commit_partial P s)).
Proof.
  unfold commit_partial, clear_transcripts. cbn.
  destruct (truthy _ || truthy _); [apply setHistory_extends | apply extends_refl].
Qed.

Lemma stopRecording_extends P s :
  extends (history s) (history (state_of (stopRecording P s))).
Proof.
  rewrite state_of_stopRecording.
  destruct (release_frame s) as (_ & _ & _ & _ & _ & H & _).
  destruct (release_resources s) as [s1|e s1|s1]; cbn [state_of] in *.
  - rewrite <- H. apply commit_partial_extends.
  - now apply extends_same.
  - now apply extends_same.
Qed.

Lemma onmessage_extends P m s :
  extends (history s) (history (onmessage P m s)).
Proof.
  unfold onmessage. destruct (serverContent m) as [c|]; [|apply extends_refl].
  destruct (transcription_frame c s) as [Hh _]. cbv zeta in Hh.
  rewrite <- Hh. unfold on_turnComplete, clear_transcripts.
  destruct (turnComplete c); [|apply extends_refl]. cbn.
  destruct (truthy _ || truthy _); [apply setHistory_extends | apply extends_refl].
Qed.

Lemma handleFileUpload_extends P f s :
  extends (history s) (history (handleFileUpload P f s)).
Proof.
  unfold handleFileUpload, upload_failed, log.
  destruct f as [[message|text]|]; cbn -[js trim setHistory];
    try apply extends_refl.
  destruct (JSON_parse P (trim text)) as [result|[| | |message|message]];
    cbn -[js trim setHistory]; try apply extends_refl.
  destruct (truthy _ || truthy _); cbn -[js trim setHistory];
    [|apply extends_refl].
  eapply extends_trans; [|apply setHistory_extends]. cbn. apply extends_refl.
Qed.

Lemma startRecording_history c env s :
  history (startRecording c env s) = history s.
Proof.
  unfold startRecording, start_failed, log.
  destruct (getUserMedia env); [destruct (client env)|]; reflexivity.
Qed.

Lemma send_continuation_extends P k s :
  extends (history s) (history (send_continuation P k s)).
Proof.
  unfold send_continuation, send_failed.
  assert (H : forall e es,
             extends (history s)
                     (history (state_of (stopRecording P (set_error e (log es s)))))).
  { intros e es. apply (stopRecording_extends P (set_error e (log es s))). }
  destruct (settles (awaited k)) as [session| |]; try apply extends_refl.
  - destruct (isRecording_captured k); [|apply extends_refl].
    destruct (sendRealtimeInput_throws session); [apply H | apply extends_refl].
  - apply H.
Qed.

Lemma step_extends P ev s : extends (history s) (history (step P ev s)).
Proof.
  destruct ev as [env| |m|m| |inputData|f| |]; cbn [step].
  - unfold handleToggleRecording. destruct (isRecording s).
    + apply stopRecording_extends.
    + apply extends_same, startRecording_history.
  - destruct (sessionPromiseRef s) as [p|]; [|apply extends_refl].
    unfold onopen. cbn. destruct (streamRef s); apply extends_refl.
  - apply onmessage_extends.
  - unfold onerror.
    apply (stopRecording_extends P (set_error _ (log _ s))).
  - apply extends_refl.
  - destruct (scriptProcessorRef s) as [node|]; [|apply extends_refl].
    unfold onaudioprocess.
    destruct (createBlob (byteOrder P) inputData); [|apply extends_refl].
    destruct (sessionPromiseRef s); [|apply extends_refl].
    apply send_continuation_extends.
  - apply handleFileUpload_extends.
  - apply render_extends.
  - apply stopRecording_extends.
Qed.

(** X13. The history is append-only: over any sequence of events, from any
    state, the history ends up as the history it started from with records
    added at its end. No handler removes, reorders or rewrites a record. *)
Theorem history_is_append_only P (evs : list Event) (s : State) :
  exists added, history (run P evs s) = history s ++ added.
Proof.
  change (extends (history s) (history (run P evs s))).
  revert s. induction evs as [|ev evs IH]; intros s.
  - apply extends_refl.
  - cbn [run fold_left].
    eapply extends_trans; [apply (step_extends P ev)|apply IH].
Qed.

(** ** The busy flags *)

Lemma startRecording_busy c env s :
  isConnecting (startRecording c env s) = false
  /\ isProcessingFile (startRecording c env s) = isProcessingFile s.
Proof.
  unfold startRecording, start_failed, log.
  destruct (getUserMedia env); [destruct (client env)|]; now split.
Qed.

Lemma handleFileUpload_busy P f s :
  isProcessingFile s = false ->
  isProcessingFile (handleFileUpload P f s) = false.
Proof. intros H. destruct f; [reflexivity | exact H]. Qed.

Lemma stopRecording_busy P s :
  isConnecting (state_of (stopRecording P s)) = false
  /\ isProcessingFile (state_of (stopRecording P s)) = isProcessingFile s.
Proof.
  destruct (stopRecording_state_frame P s) as (_ & H2 & _ & _ & H5).
  now split.
Qed.

Lemma send_continuation_busy P k s :
  isConnecting s = false ->
  isConnecting (send_continuation P k s) = false
  /\ isProcessingFile (send_continuation P k s) = isProcessingFile s.
Proof.
  intros H. unfold send_continuation, send_failed.
  assert (Hs : forall e es,
             isConnecting (state_of (stopRecording P (set_error e (log es s))))
             = false
             /\ isProcessingFile
                  (state_of (stopRecording P (set_error e (log es s))))
                = isProcessingFile s).
  { intros e es. apply (stopRecording_busy P (set_error e (log es s))). }
  destruct (settles (awaited k)) as [session| |]; try now split.
  - destruct (isRecording_captured k); [|now split].
    destruct (sendRealtimeInput_throws session); [apply Hs | now split].
  - apply Hs.
Qed.

Lemma step_busy P ev s :
  isConnecting s = false ->
  isProcessingFile s = false ->
  isConnecting (step P ev s) = false
  /\ isProcessingFile (step P ev s) = false.
Proof.
  intros Hc Hf. destruct ev as [env| |m|m| |inputData|f| |]; cbn [step].
  - unfold handleToggleRecording. destruct (isRecording s).
    + destruct (stopRecording_busy P s) as [H1 H2]. now rewrite H1, H2.
    + destruct (startRecording_busy false env s) as [H1 H2].
      now rewrite H1, H2.
  - destruct (sessionPromiseRef s) as [p|]; [|now split].
    unfold onopen. cbn. destruct (streamRef s); now split.
  - destruct (onmessage_flags P m s) as (_ & H2 & H3 & _).
    now rewrite H2, H3.
  - unfold onerror.
    destruct (stopRecording_busy P
                (set_error
                   (Some (js "An error occurred: "
                          ++ or_else m (js "Unknown error")
                          ++ js ". Please try again."))
                   (log [ConsoleError (js "Session error:")] s)))
      as [H1 H2].
    split; [exact H1 | now rewrite H2].
  - now split.
  - destruct (scriptProcessorRef s) as [node|]; [|now split].
    unfold onaudioprocess.
    destruct (createBlob (byteOrder P) inputData); [|now split].
    destruct (sessionPromiseRef s) as [p|]; [|now split].
    destruct (send_continuation_busy P
                {| awaited := p; pcmBlob := a;
                   isRecording_captured := handler_isRecording node |} s Hc)
      as [H1 H2].
    split; [exact H1 | now rewrite H2].
  - destruct (handleFileUpload_flags P f s) as (_ & H2 & _).
    split; [now rewrite H2 | now apply handleFileUpload_busy].
  - now split.
  - destruct (stopRecording_busy P s) as [H1 H2]. now rewrite H1, H2.
Qed.

(** X14. No handler leaves a busy flag up: after any sequence of handlers,
    each run to its end, [isConnecting] and [isProcessingFile] are both
    down, whether the start was granted, refused or thrown out of, and
    whether the upload succeeded or failed at any step. *)
Theorem busy_flags_are_lowered P (s : State) :
  reachable P s ->
  isConnecting s = false /\ isProcessingFile s = false.
Proof.
  induction 1 as [|ev s _ [Hc Hf]]; [now split|].
  now apply step_busy.
Qed.

Lemma busy_flags_are_lowered_witness :
  reachable deferred_platform
            (step deferred_platform (Click microphone_denied) initial)
  /\ isConnecting (step deferred_platform (Click microphone_denied) initial)
     = false.
Proof.
  assert (H : reachable deferred_platform
                (step deferred_platform (Click microphone_denied) initial))
    by (apply reachable_step, reachable_initial).
  split; [exact H|].
  exact (proj1 (@busy_flags_are_lowered deferred_platform _ H)).
Defined.

(** ** Starting a recording that fails *)

(** X15. When the microphone is refused, a click on the idle record control
    shows the microphone message and starts nothing: no stream, no session,
    no node is taken, both flags are down, and the only call made outside
    is the console report. *)
Theorem denied_microphone_starts_nothing P env s :
  isRecording s = false ->
  getUserMedia env = Denied ->
  let s' := handleToggleRecording P env s in
  error s'
  = Some (js "Could not access microphone. Please grant permission and try again.")
  /\ isRecording s' = false
  /\ isConnecting s' = false
  /\ streamRef s' = streamRef s
  /\ sessionPromiseRef s' = sessionPromiseRef s
  /\ audioContextRef s' = audioContextRef s
  /\ scriptProcessorRef s' = scriptProcessorRef s
  /\ history s' = history s
  /\ effects s' = effects s ++ [ConsoleError (js "Failed to start recording:")].
Proof.
  intros Hr Hd. unfold handleToggleRecording, startRecording, start_failed, log.
  rewrite Hr, Hd. cbn -[js]. rewrite Hr. repeat split.
Qed.

Lemma denied_microphone_starts_nothing_witness :
  isRecording initial = false
  /\ getUserMedia microphone_denied = Denied
  /\ streamRef (handleToggleRecording deferred_platform microphone_denied initial)
     = None.
Proof.
  split; [reflexivity|]. split; [reflexivity|].
  exact (proj1 (proj2 (proj2 (proj2
           (@denied_microphone_starts_nothing
              deferred_platform microphone_denied initial eq_refl eq_refl))))).
Defined.

(** *** What the teardown calls *)

Lemma disconnect_processor_effects s :
  extends (effects s) (effects (disconnect_processor s)).
Proof.
  unfold disconnect_processor, log.
  destruct (scriptProcessorRef s), (audioContextRef s); cbn;
    try apply extends_refl; now eexists.
Qed.

Lemma close_context_effects s :
  extends (effects s) (effects (state_of (close_context s))).
Proof.
  unfold close_context, AudioContext_close, log.
  destruct (audioContextRef s) as [[[| |]]|]; cbn;
    try apply extends_refl; now eexists.
Qed.

Lemma close_session_effects s :
  extends (effects s) (effects (state_of (close_session s))).
Proof.
  unfold close_session, log.
  destruct (sessionPromiseRef s) as [[[[[|] ?]| |] ?]|]; cbn -[js];
    try apply extends_refl; now eexists.
Qed.

Lemma state_of_and_then o k :
  state_of (and_then o k)
  = match o with
    | Returned s => state_of (k s)
    | _ => state_of o
    end.
Proof. now destruct o. Qed.

Lemma stop_tracks_effects s stream :
  streamRef s = Some stream ->
  effects (stop_tracks (set_isConnecting false (set_isRecording false s)))
  = effects s ++ map TrackStop (getTracks stream).
Proof. intros H. unfold stop_tracks, log. cbn. now rewrite H. Qed.

Lemma stopRecording_stops_tracks P s stream :
  streamRef s = Some stream ->
  extends (effects s ++ map TrackStop (getTracks stream))
          (effects (state_of (stopRecording P s))).
Proof.
  intros Hs. rewrite <- (stop_tracks_effects s Hs).
  set (s0 := stop_tracks (set_isConnecting false (set_isRecording false s))).
  assert (Hrel : extends (effects s0) (effects (state_of (release_resources s)))).
  { unfold release_resources. fold s0. rewrite state_of_and_then.
    eapply extends_trans; [apply disconnect_processor_effects|].
    pose proof (close_context_effects (disconnect_processor s0)) as Hc.
    destruct (close_context (disconnect_processor s0)) as [s1|e s1|s1];
      cbn [state_of] in *; try exact Hc.
    eapply extends_trans; [exact Hc | apply close_session_effects]. }
  rewrite state_of_stopRecording.
  destruct (release_resources s) as [s1|e s1|s1]; cbn [state_of] in *;
    try exact Hrel.
  now rewrite commit_partial_effects.
Qed.

(** X16. When the microphone is granted and building the client throws, the
    [catch] block reports the microphone message and lowers [isConnecting]
    only: the recording flag stays set and the stream stays held, with no
    session. The next click on the control is then a stop: it lowers the
    flag, stops every track of that stream and drops it. *)
Theorem failed_client_leaves_recording_on P env env' stream s :
  isRecording s = false ->
  getUserMedia env = Granted stream ->
  client env = ConstructorThrows ->
  let s' := handleToggleRecording P env s in
  let s'' := handleToggleRecording P env' s' in
  isRecording s' = true
  /\ isConnecting s' = false
  /\ streamRef s' = Some stream
  /\ sessionPromiseRef s' = sessionPromiseRef s
  /\ error s'
     = Some (js "Could not access microphone. Please grant permission and try again.")
  /\ isRecording s'' = false
  /\ streamRef s'' = None
  /\ exists rest,
       effects s'' = (effects s' ++ map TrackStop (getTracks stream)) ++ rest.
Proof.
  intros Hr Hg Hc s'.
  assert (Hs' : s' = start_failed
                       (set_isRecording true
                          (set_isConnecting false
                             (set_streamRef (Some stream)
                                (set_malayalamTranslation []
                                   (set_userTranscript []
                                      (set_error None
                                         (set_isConnecting true s)))))))).
  { subst s'. unfold handleToggleRecording, startRecording.
    now rewrite Hr, Hg, Hc. }
  assert (H1 : isRecording s' = true) by now rewrite Hs'.
  assert (H3 : streamRef s' = Some stream) by now rewrite Hs'.
  intros s''.
  assert (Hs'' : s'' = state_of (stopRecording P s')).
  { subst s''. unfold handleToggleRecording. now rewrite H1. }
  destruct (stopRecording_state_frame P s') as (F1 & _ & F3 & _).
  pose proof (stopRecording_stops_tracks P s' H3) as Ht.
  rewrite <- Hs'' in F1, F3, Ht.
  clearbody s''. clear Hs''.
  split; [exact H1|].
  split; [now rewrite Hs'|].
  split; [exact H3|].
  split; [now rewrite Hs'|].
  split; [now rewrite Hs'|].
  split; [exact F1|].
  split; [exact F3|].
  exact Ht.
Qed.

Lemma failed_client_leaves_recording_on_witness :
  isRecording initial = false
  /\ getUserMedia client_unavailable = Granted {| getTracks := [0%nat] |}
  /\ client client_unavailable = ConstructorThrows
  /\ isRecording
       (handleToggleRecording deferred_platform client_unavailable initial)
     = true.
Proof.
  split; [reflexivity|]. split; [reflexivity|]. split; [reflexivity|].
  exact (proj1 (@failed_client_leaves_recording_on
                  deferred_platform client_unavailable client_unavailable
                  {| getTracks := [0%nat] |} initial
                  eq_refl eq_refl eq_refl)).
Defined.

Lemma stop_tracks_held s stream :
  streamRef s = Some stream ->
  stop_tracks s = set_streamRef None (log (map TrackStop (getTracks stream)) s).
Proof. intros Hs. unfold stop_tracks. now rewrite Hs. Qed.

Lemma disconnect_processor_held s node c :
  scriptProcessorRef s = Some node ->
  audioContextRef s = Some c ->
  disconnect_processor s
  = set_scriptProcessorRef None (log [ProcessorDisconnect] s).
Proof. intros Hn Hc. unfold disconnect_processor. now rewrite Hn, Hc. Qed.

Lemma close_context_open s c :
  audioContextRef s = Some c ->
  state c <> closed ->
  close_context s = Returned (set_audioContextRef None (log [ContextClose] s)).
Proof.
  intros Hc Hst. unfold close_context, AudioContext_close. rewrite Hc.
  destruct (state c); congruence.
Qed.

Lemma close_session_fulfilled s p session :
  sessionPromiseRef s = Some p ->
  settles p = Fulfilled session ->
  close_throws session = false ->
  close_session s
  = Returned (set_sessionPromiseRef None (log [SessionClose] s)).
Proof.
  intros Hp Hse Hth. unfold close_session. now rewrite Hp, Hse, Hth.
Qed.

Lemma release_all s stream node c p session :
  streamRef s = Some stream ->
  scriptProcessorRef s = Some node ->
  audioContextRef s = Some c ->
  state c <> closed ->
  sessionPromiseRef s = Some p ->
  settles p = Fulfilled session ->
  close_throws session = false ->
  exists s1,
    release_resources s = Returned s1
    /\ effects s1
       = effects s ++ map TrackStop (getTracks stream)
         ++ [ProcessorDisconnect; ContextClose; SessionClose].
Proof.
  intros Hs Hn Hc Hst Hp Hse Hth.
  unfold release_resources.
  set (s0 := set_isConnecting false (set_isRecording false s)).
  rewrite (@stop_tracks_held s0 stream Hs).
  set (s1 := set_streamRef None _).
  rewrite (@disconnect_processor_held s1 node c Hn Hc).
  set (s2 := set_scriptProcessorRef None _).
  rewrite (@close_context_open s2 c Hc Hst). cbn [and_then].
  set (s3 := set_audioContextRef None _).
  rewrite (@close_session_fulfilled s3 p session Hp Hse Hth).
  eexists. split; [reflexivity|].
  subst s3 s2 s1 s0. unfold log. cbn.
  now rewrite <- !app_assoc.
Qed.

(** X17. Stopping a recording that holds a stream, a processor node, an
    open context and a connected session makes its calls in this order:
    every track is stopped, the node is disconnected, the context is
    closed, the session is closed; and nothing else is called. *)
Theorem teardown_calls_in_order P s stream node c p session :
  streamRef s = Some stream ->
  scriptProcessorRef s = Some node ->
  audioContextRef s = Some c ->
  state c <> closed ->
  sessionPromiseRef s = Some p ->
  settles p = Fulfilled session ->
  close_throws session = false ->
  exists s',
    stopRecording P s = Returned s'
    /\ effects s'
       = effects s ++ map TrackStop (getTracks stream)
         ++ [ProcessorDisconnect; ContextClose; SessionClose].
Proof.
  intros Hs Hn Hc Hst Hp Hse Hth.
  destruct (release_all s Hs Hn Hc Hst Hp Hse Hth) as (s1 & Hrel & He).
  exists (commit_partial P s1). split.
  - unfold stopRecording. now rewrite Hrel.
  - now rewrite commit_partial_effects.
Qed.

Lemma teardown_calls_in_order_witness :
  exists s',
    stopRecording deferred_platform recording_state = Returned s'
    /\ effects s'
       = effects recording_state ++ map TrackStop [0%nat]
         ++ [ProcessorDisconnect; ContextClose; SessionClose].
Proof.
  apply (@teardown_calls_in_order
           deferred_platform recording_state {| getTracks := [0%nat] |}
           {| handler_isRecording := false |} {| state := running |}
           {| settles := Fulfilled well_behaved_session;
              callbacks_isRecording := false |}
           well_behaved_session);
    try reflexivity.
  discriminate.
Defined.

(** X18. While the session promise stays pending, [stopRecording] stops at
    the [await] of line 62 for good: the flags are down and the microphone
    is released, but the session ref is kept, nothing is committed and the
    transcripts are not cleared. *)
Theorem stop_waits_on_pending_session P s p :
  sessionPromiseRef s = Some p ->
  settles p = NeverSettles ->
  exists s',
    stopRecording P s = Suspended s'
    /\ isRecording s' = false
    /\ isConnecting s' = false
    /\ streamRef s' = None
    /\ sessionPromiseRef s' = Some p
    /\ history s' = history s
    /\ pendingHistory s' = pendingHistory s
    /\ userTranscript s' = userTranscript s
    /\ malayalamTranslation s' = malayalamTranslation s
    /\ currentInputTranscriptionRef s' = currentInputTranscriptionRef s
    /\ currentOutputTranscriptionRef s' = currentOutputTranscriptionRef s.
Proof.
  intros Hp Hse.
  assert (Hrel : exists s1,
             release_resources s = Suspended s1
             /\ sessionPromiseRef s1 = Some p).
  { unfold_release. cases; try congruence; eauto. }
  destruct Hrel as (s1 & Hrel & Hp1).
  pose proof (release_frame s) as F. rewrite Hrel in F. cbn [state_of] in F.
  destruct F as (F1 & F2 & _ & F4 & F5 & F6 & F7 & _ & F9 & F10).
  pose proof (release_stream_none s) as Hs. rewrite Hrel in Hs.
  cbn [state_of] in Hs.
  exists s1. unfold stopRecording. rewrite Hrel. cbn [and_then].
  repeat split; assumption.
Qed.

Lemma stop_waits_on_pending_session_witness :
  exists s',
    stopRecording deferred_platform
      (set_sessionPromiseRef
         (Some {| settles := NeverSettles; callbacks_isRecording := false |})
         initial)
    = Suspended s'
    /\ isRecording s' = false.
Proof.
  destruct (@stop_waits_on_pending_session
              deferred_platform
              (set_sessionPromiseRef
                 (Some {| settles := NeverSettles;
                          callbacks_isRecording := false |}) initial)
              {| settles := NeverSettles; callbacks_isRecording := false |}
              eq_refl eq_refl) as (s' & H1 & H2 & _).
  exists s'. split; assumption.
Defined.

(** X19. Unmounting the component in any state it can reach, the session
    promise not pending, leaves nothing behind: the four handles are
    released, the recording flag is down and every track of the stream that
    was held has been stopped. *)
Theorem unmount_releases_everything P (s : State) :
  reachable P s ->
  (forall p, sessionPromiseRef s = Some p -> settles p <> NeverSettles) ->
  let s' := step P Unmounted s in
  handles_released s'
  /\ isRecording s' = false
  /\ forall stream track,
       streamRef s = Some stream ->
       In track (getTracks stream) ->
       In (TrackStop track) (effects s').
Proof.
  intros Hr Hp s'. subst s'. cbn [step].
  pose proof (reachable_invariant Hr) as Hinv.
  assert (Hg : graph_consistent s = true).
  { unfold invariant in Hinv. apply andb_true_iff in Hinv. tauto. }
  destruct (@stopRecording_returns P s Hp) as [s1 Hs].
  destruct (stopRecording_state_frame P s) as (F1 & _).
  split; [|split].
  - rewrite Hs. exact (stopRecording_releases P s Hg Hs).
  - exact F1.
  - intros stream track Hst Hin.
    destruct (stopRecording_stops_tracks P s Hst) as [rest ->].
    apply in_or_app. left. apply in_or_app. right.
    now apply in_map.
Qed.

Lemma unmount_releases_everything_witness :
  reachable deferred_platform recording_state
  /\ (forall p,
         sessionPromiseRef recording_state = Some p ->
         settles p <> NeverSettles)
  /\ handles_released (step deferred_platform Unmounted recording_state).
Proof.
  assert (Hr : reachable deferred_platform recording_state).
  { unfold recording_state, run. cbn [fold_left].
    apply reachable_step, reachable_step, reachable_initial. }
  assert (Hp : forall p,
             sessionPromiseRef recording_state = Some p ->
             settles p <> NeverSettles).
  { intros p H. injection H as <-. discriminate. }
  split; [exact Hr|]. split; [exact Hp|].
  exact (proj1 (@unmount_releases_everything
                  deferred_platform recording_state Hr Hp)).
Defined.

(** ** Transcripts *)

Lemma input_fragment_step P t s :
  let s' := onmessage P (input_fragment t) s in
  currentInputTranscriptionRef s' = currentInputTranscriptionRef s ++ t
  /\ userTranscript s' = currentInputTranscriptionRef s ++ t
  /\ currentOutputTranscriptionRef s' = currentOutputTranscriptionRef s
  /\ malayalamTranslation s' = malayalamTranslation s
  /\ history s' = history s
  /\ pendingHistory s' = pendingHistory s.
Proof. repeat split. Qed.

Lemma fragments_shown P ts s :
  ts <> [] ->
  userTranscript (run P (map (fun t => SessionMessage (input_fragment t)) ts) s)
  = currentInputTranscriptionRef
      (run P (map (fun t => SessionMessage (input_fragment t)) ts) s).
Proof.
  revert s. induction ts as [|t ts IH]; intros s Hne; [congruence|].
  cbn [map run fold_left step].
  destruct ts as [|t' ts']; [reflexivity|].
  apply (IH (onmessage P (input_fragment t) s)). discriminate.
Qed.

(** X20. Input fragments add up in the order they arrive: after the
    messages carrying [t1 ... tn], with no turn completed in between, the
    accumulator holds what it held followed by [t1 ++ ... ++ tn], the card
    shows the same text, and the history is as it was. *)
Theorem fragments_accumulate_in_order P (ts : list jsstring) (s : State) :
  let s' := run P (map (fun t => SessionMessage (input_fragment t)) ts) s in
  currentInputTranscriptionRef s' = currentInputTranscriptionRef s ++ concat ts
  /\ userTranscript s'
     = match ts with
       | [] => userTranscript s
       | _ :: _ => currentInputTranscriptionRef s ++ concat ts
       end
  /\ currentOutputTranscriptionRef s' = currentOutputTranscriptionRef s
  /\ history s' = history s
  /\ pendingHistory s' = pendingHistory s.
Proof.
  intros s'.
  assert (H : currentInputTranscriptionRef s'
              = currentInputTranscriptionRef s ++ concat ts
              /\ currentOutputTranscriptionRef s' = currentOutputTranscriptionRef s
              /\ history s' = history s
              /\ pendingHistory s' = pendingHistory s).
  { subst s'. revert s. induction ts as [|t ts IH]; intros s.
    - cbn. now rewrite app_nil_r.
    - cbn [map run fold_left step concat].
      destruct (IH (onmessage P (input_fragment t) s)) as (H1 & H2 & H3 & H4).
      unfold run in *. rewrite H1, H2, H3, H4.
      destruct (input_fragment_step P t s) as (G1 & _ & G3 & _ & G5 & G6).
      rewrite G1, G3, G5, G6, <- app_assoc. repeat split. }
  destruct H as (H1 & H2 & H3 & H4).
  split; [exact H1|]. split; [|now repeat split].
  destruct ts as [|t ts]; [reflexivity|].
  rewrite <- H1. subst s'. apply fragments_shown. discriminate.
Qed.

Lemma undefined_is_not_blank acc :
  truthy (trim (acc ++ js "undefined")) = true.
Proof.
  rewrite truthy_trim. unfold non_blankb. rewrite existsb_app.
  apply orb_true_iff. now right.
Qed.

(** X21. A transcription that comes without [text] is not skipped: the
    accumulator gains the nine characters of "undefined", the card shows
    them, and a turn completed by the same message commits them to the
    history. *)
Theorem absent_text_is_spelled_out P (complete : bool) (s : State) :
  let message :=
    {| serverContent :=
         Some {| inputTranscription := Some {| text := None |};
                 outputTranscription := None;
                 turnComplete := complete |} |} in
  let s' := onmessage P message s in
  (complete = false ->
   currentInputTranscriptionRef s'
   = currentInputTranscriptionRef s ++ js "undefined"
   /\ userTranscript s' = currentInputTranscriptionRef s ++ js "undefined"
   /\ history s' = history s)
  /\ (complete = true ->
      pendingHistory s = [] ->
      history (render s')
      = history s
        ++ [ {| user := currentInputTranscriptionRef s ++ js "undefined";
                translation := currentOutputTranscriptionRef s |} ]).
Proof.
  intros message s'. split.
  - intros ->. repeat split.
  - intros -> Hq. subst s' message. unfold onmessage, on_turnComplete.
    cbn -[js trim setHistory render clear_transcripts].
    unfold append_text. cbn -[js trim setHistory render clear_transcripts].
    rewrite undefined_is_not_blank. cbn [orb].
    now rewrite render_setHistory_record.
Qed.

Lemma absent_text_is_spelled_out_witness :
  history
    (render
       (onmessage deferred_platform
          {| serverContent :=
               Some {| inputTranscription := Some {| text := None |};
                       outputTranscription := None;
                       turnComplete := true |} |} initial))
  = [ {| user := js "undefined"; translation := [] |} ].
Proof.
  exact (proj2 (@absent_text_is_spelled_out deferred_platform true initial)
               eq_refl eq_refl).
Defined.

(** X22. [startRecording] empties the two cards and leaves the two
    accumulators as they are: the first fragment of the new recording is
    shown after whatever the accumulator still held. *)
Theorem start_keeps_the_accumulators P c env (t : jsstring) (s : State) :
  let s1 := startRecording c env s in
  userTranscript s1 = []
  /\ malayalamTranslation s1 = []
  /\ currentInputTranscriptionRef s1 = currentInputTranscriptionRef s
  /\ currentOutputTranscriptionRef s1 = currentOutputTranscriptionRef s
  /\ userTranscript (onmessage P (input_fragment t) s1)
     = currentInputTranscriptionRef s ++ t.
Proof.
  unfold startRecording, start_failed, log.
  destruct (getUserMedia env); [destruct (client env)|]; repeat split.
Qed.

(** ** Errors of the session *)

(** X23. A session error in any state the component can reach, the session
    promise not pending: the message shown is built from the error's
    message, or from "Unknown error" when it has none; the four handles are
    released, the flags are down, and the cards and accumulators are
    empty. *)
Theorem session_error_tears_down P (message : jsstring) (s : State) :
  reachable P s ->
  (forall p, sessionPromiseRef s = Some p -> settles p <> NeverSettles) ->
  let s' := onerror P message s in
  error s'
  = Some (js "An error occurred: " ++ or_else message (js "Unknown error")
          ++ js ". Please try again.")
  /\ error (onerror P [] s)
     = Some (js "An error occurred: Unknown error. Please try again.")
  /\ handles_released s'
  /\ isRecording s' = false
  /\ isConnecting s' = false
  /\ userTranscript s' = []
  /\ malayalamTranslation s' = []
  /\ currentInputTranscriptionRef s' = []
  /\ currentOutputTranscriptionRef s' = [].
Proof.
  intros Hr Hp s'.
  assert (Herr : forall m,
             error (onerror P m s)
             = Some (js "An error occurred: " ++ or_else m (js "Unknown error")
                     ++ js ". Please try again.")).
  { intros m. unfold onerror.
    destruct (stopRecording_state_frame P
                (set_error
                   (Some (js "An error occurred: "
                          ++ or_else m (js "Unknown error")
                          ++ js ". Please try again."))
                   (log [ConsoleError (js "Session error:")] s)))
      as (_ & _ & _ & He & _).
    exact He. }
  split; [apply Herr|]. split; [apply (Herr [])|].
  subst s'. unfold onerror.
  set (x := set_error _ (log _ s)).
  pose proof (reachable_invariant Hr) as Hinv.
  assert (Hg : graph_consistent x = true).
  { unfold invariant in Hinv. apply andb_true_iff in Hinv.
    destruct Hinv as [Hg _]. exact Hg. }
  destruct (@stopRecording_returns P x) as [s2 Hx].
  { intros p Hpx. apply (Hp p). exact Hpx. }
  rewrite Hx. cbn [state_of].
  split; [exact (stopRecording_releases P x Hg Hx)|].
  exact (stopRecording_cleared P x Hx).
Qed.

Lemma session_error_tears_down_witness :
  reachable deferred_platform recording_state
  /\ (forall p,
         sessionPromiseRef recording_state = Some p ->
         settles p <> NeverSettles)
  /\ error (onerror deferred_platform [] recording_state)
     = Some (js "An error occurred: Unknown error. Please try again.").
Proof.
  assert (Hr : reachable deferred_platform recording_state).
  { unfold recording_state, run. cbn [fold_left].
    apply reachable_step, reachable_step, reachable_initial. }
  assert (Hp : forall p,
             sessionPromiseRef recording_state = Some p ->
             settles p <> NeverSettles).
  { intros p H. injection H as <-. discriminate. }
  split; [exact Hr|]. split; [exact Hp|].
  exact (proj1 (proj2 (@session_error_tears_down
                         deferred_platform [] recording_state Hr Hp))).
Defined.

(** ** One-shot file transcription, the other outcomes *)

(** X24. [handleFileUpload] tests the two fields of the reply for being
    non-empty, not for being non-blank: a reply with a field of white space
    only is committed like any other, with no error. *)
Theorem non_empty_reply_is_committed P text result s :
  pendingHistory s = [] ->
  JSON_parse P (trim text) = Normal result ->
  truthy (Reply.transcription result) || truthy (Reply.translation result)
  = true ->
  let s' := handleFileUpload P (Some (Responded text)) s in
  history (render s')
  = history s ++ [ {| user := Reply.transcription result;
                      translation := Reply.translation result |} ]
  /\ userTranscript s' = Reply.transcription result
  /\ malayalamTranslation s' = Reply.translation result
  /\ error s' = None
  /\ isProcessingFile s' = false.
Proof.
  intros Hq Hparse Ht s'. subst s'. unfold handleFileUpload.
  rewrite Hparse, Ht. unfold setHistory. cbn. rewrite Hq.
  destruct (runs_updater_now P _); unfold render; cbn; rewrite ?Hq;
    repeat split; reflexivity.
Qed.

Lemma non_empty_reply_is_committed_witness :
  pendingHistory initial = []
  /\ ~ non_blank (js " ")
  /\ history
       (render (handleFileUpload blank_reply_platform
                                 (Some (Responded (js "{}"))) initial))
     = [ {| user := js " "; translation := [] |} ].
Proof.
  split; [reflexivity|].
  split; [apply blank_not_non_blank; reflexivity|].
  exact (proj1 (@non_empty_reply_is_committed
                  blank_reply_platform (js "{}")
                  {| Reply.transcription := js " "; Reply.translation := [] |}
                  initial eq_refl eq_refl eq_refl)).
Defined.

(** X25. A file transcription that fails shows
    "Failed to process audio file: " followed by the message of the error,
    or by "Unknown error" when the error has none, as is the case when the
    file cannot be read; the history is unchanged, both cards are empty and
    the busy flag is down. This holds for a failed read or request and for
    a response that [JSON.parse] rejects. *)
Theorem failed_upload_shows_cause P (message text : jsstring)
        (ev : ProgressEvent) generateContent (s : State) :
  let shows (cause : jsstring) (s' : State) :=
    error s' = Some (js "Failed to process audio file: " ++ cause)
    /\ history s' = history s
    /\ pendingHistory s' = pendingHistory s
    /\ userTranscript s' = []
    /\ malayalamTranslation s' = []
    /\ isProcessingFile s' = false in
  shows (or_else message (js "Unknown error"))
        (handleFileUpload P (Some (Failed message)) s)
  /\ shows (js "Unknown error")
           (handleFileUpload P
              (Some (read_and_request (ReadFailed ev) generateContent)) s)
  /\ (JSON_parse P (trim text) = Throw (SyntaxError message) ->
      shows (or_else message (js "Unknown error"))
            (handleFileUpload P (Some (Responded text)) s)).
Proof.
  intros shows. subst shows. cbv beta.
  split; [|split].
  - unfold handleFileUpload, upload_failed, log. cbn -[js]. repeat split.
  - unfold handleFileUpload, upload_failed, log. cbn -[js]. repeat split.
  - intros Hparse. unfold handleFileUpload, upload_failed, log.
    rewrite Hparse. cbn -[js]. repeat split.
Qed.

Lemma failed_upload_shows_cause_witness :
  JSON_parse deferred_platform (trim (js "{"))
  = Throw (SyntaxError (js "Unexpected end of JSON input"))
  /\ error (handleFileUpload deferred_platform (Some (Responded (js "{")))
                             initial)
     = Some (js "Failed to process audio file: "
             ++ or_else (js "Unexpected end of JSON input") (js "Unknown error")).
Proof.
  split; [reflexivity|].
  exact (proj1 (proj2 (proj2 (@failed_upload_shows_cause
                                deferred_platform
                                (js "Unexpected end of JSON input") (js "{")
                                (progress_event (js "error"))
                                (fun _ => Failed []) initial))
                      eq_refl)).
Defined.

Import Components.

(** ** What a render shows *)

Lemma combine_seq_fst (A : Type) (l : list A) n :
  map fst (combine (seq n (length l)) l) = seq n (length l).
Proof.
  revert n. induction l as [|a l IH]; intros n; [reflexivity|].
  cbn. now rewrite IH.
Qed.

Lemma combine_seq_snd (A : Type) (l : list A) n :
  map snd (combine (seq n (length l)) l) = l.
Proof.
  revert n. induction l as [|a l IH]; intros n; [reflexivity|].
  cbn. now rewrite IH.
Qed.

(** X26. The history is listed newest first: the record appended last is
    the first row, under the key 0, and the older records follow from the
    most recent to the oldest under the keys 1, 2, ... *)
Theorem history_is_listed_newest_first
        (s : State) (h : list TranscriptionHistory) (r : TranscriptionHistory) :
  history s = h ++ [r] ->
  exists older,
    history_list (view s) = Some ((0%nat, r) :: older)
    /\ map snd older = rev h
    /\ map fst older = seq 1 (length h).
Proof.
  intros Hh. unfold view. cbn [history_list]. rewrite Hh.
  rewrite rev_app_distr, length_app. cbn [rev app length].
  replace (0 <? length h + 1)%nat with true
    by (symmetry; apply Nat.ltb_lt; lia).
  exists (combine (seq 1 (length (rev h))) (rev h)).
  split; [reflexivity|]. split.
  - apply combine_seq_snd.
  - rewrite combine_seq_fst. now rewrite length_rev.
Qed.

Lemma history_is_listed_newest_first_witness :
  history
    (render (onmessage deferred_platform
                       {| serverContent := Some hello_turn |} initial))
  = [] ++ [ {| user := js "hello"; translation := [] |} ]
  /\ exists older,
       history_list
         (view (render (onmessage deferred_platform
                                  {| serverContent := Some hello_turn |}
                                  initial)))
       = Some ((0%nat, {| user := js "hello"; translation := [] |}) :: older)
       /\ map snd older = rev []
       /\ map fst older = seq 1 (length (@nil TranscriptionHistory)).
Proof.
  split; [reflexivity|].
  apply (@history_is_listed_newest_first
           (render (onmessage deferred_platform
                              {| serverContent := Some hello_turn |} initial))
           [] {| user := js "hello"; translation := [] |}).
  reflexivity.
Defined.

Lemma cards_of_empty_transcripts s :
  userTranscript s = [] ->
  malayalamTranslation s = [] ->
  body (speech_card (view s)) = Placeholder (js "Waiting for audio...")
  /\ body (translation_card (view s)) = Placeholder (js "Waiting for audio...").
Proof.
  intros H1 H2. unfold view, TranscriptionCard. cbn -[js].
  now rewrite H1, H2.
Qed.

(** X27. Once a turn is complete, and once [stopRecording] has returned,
    both cards are back to the placeholder "Waiting for audio...",
    whatever they showed before. *)
Theorem cards_wait_after_turn_and_stop P (s : State) :
  let waiting (s' : State) :=
    body (speech_card (view s')) = Placeholder (js "Waiting for audio...")
    /\ body (translation_card (view s'))
       = Placeholder (js "Waiting for audio...") in
  (forall c,
      turnComplete c = true ->
      waiting (onmessage P {| serverContent := Some c |} s))
  /\ (forall s1, stopRecording P s = Returned s1 -> waiting s1).
Proof.
  intros waiting. subst waiting. cbv beta. split.
  - intros c Hc. apply cards_of_empty_transcripts;
      unfold onmessage, on_turnComplete, clear_transcripts;
      cbn -[js trim setHistory]; now rewrite Hc.
  - intros s1 Hs.
    destruct (stopRecording_cleared P s Hs) as (_ & _ & H3 & H4 & _).
    now apply cards_of_empty_transcripts.
Qed.

Lemma cards_wait_after_turn_and_stop_witness :
  turnComplete hello_turn = true
  /\ body (speech_card
             (view (onmessage deferred_platform
                              {| serverContent := Some hello_turn |} initial)))
     = Placeholder (js "Waiting for audio...").
Proof.
  split; [reflexivity|].
  exact (proj1 (proj1 (@cards_wait_after_turn_and_stop deferred_platform initial)
                      hello_turn eq_refl)).
Defined.

(** X28. The controls say what they do. The status line is the idle prompt
    exactly when the upload control is enabled; the record control shows
    the stop icon exactly when the status line announces a recording, and
    a click then runs [stopRecording]; when it shows the microphone, a
    click runs [startRecording]; and whenever the record control is
    disabled, so is the upload control. *)
Theorem controls_say_what_they_do P env (s : State) :
  (status_line (view s) = js "Click to record or upload an audio file"
   <-> upload_disabled (view s) = false)
  /\ (record_icon (view s) = StopIcon
      <-> status_line (view s) = js "Recording... Click to stop")
  /\ (record_icon (view s) = StopIcon ->
      handleToggleRecording P env s = state_of (stopRecording P s))
  /\ (record_icon (view s) = MicrophoneIcon ->
      handleToggleRecording P env s = startRecording false env s)
  /\ (record_disabled (view s) = true -> upload_disabled (view s) = true).
Proof.
  unfold view, getStatusText, isBusy, handleToggleRecording.
  cbn [status_line upload_disabled record_icon record_disabled].
  destruct (isConnecting s), (isRecording s), (isProcessingFile s);
    cbn [orb];
    repeat split; intros H; try reflexivity; try discriminate H;
    try (vm_compute in H; discriminate H).
Qed.

Lemma controls_say_what_they_do_witness :
  record_icon (view recording_state) = StopIcon
  /\ handleToggleRecording deferred_platform microphone_granted recording_state
     = state_of (stopRecording deferred_platform recording_state).
Proof.
  split; [reflexivity|].
  exact (proj1 (proj2 (proj2 (@controls_say_what_they_do
                                deferred_platform microphone_granted
                                recording_state)))
               eq_refl).
Defined.

(** ** Examples *)

(** The test vectors of RFC 4648, section 10. *)
Example rfc4648_vectors :
  map (fun s => rfc4648_encode (list_byte_of_string s))
      ["f"; "fo"; "foo"; "foob"; "fooba"; "foobar"]%string
  = map js ["Zg=="; "Zm8="; "Zm9v"; "Zm9vYg=="; "Zm9vYmE="; "Zm9vYmFy"]%string.
Proof. reflexivity. Qed.

Example encode_foobar :
  encode (list_byte_of_string "foobar") = Normal (js "Zm9vYmFy").
Proof. reflexivity. Qed.

Example trim_ascii : trim (js "  hello world ") = js "hello world".
Proof. reflexivity. Qed.

(** NO-BREAK SPACE, LINE SEPARATOR, SPACE and U+FEFF only. *)
Example trim_unicode_blank : trim [160; 8232; 32; 65279]%N = [].
Proof. reflexivity. Qed.

(** 1.5, -1.5, the largest binary32 below 1, and -0.1 rounded to binary32:
    values beyond the 16-bit range wrap, fractions are cut toward zero. *)
Example to_int16_samples :
  to_int16 [ S754_finite false 12582912 (-23);
             S754_finite true 12582912 (-23);
             S754_finite false 16777215 (-24);
             S754_finite true 13421773 (-27);
             S754_nan;
             S754_infinity false ]
  = [-16384; 16384; 32767; -3276; 0; 0]%Z.
Proof. reflexivity. Qed.

(** The samples 1.0, -0.5 and 12345678 * 2^-30 give the bytes
    00 80 00 C0 78 01. *)
Example createBlob_three_samples :
  createBlob LittleEndian [sample_one; sample_minus_half; sample_small]
  = Normal {| data := js "AIAAwHgB"; mimeType := js "audio/pcm;rate=16000" |}.
Proof. reflexivity. Qed.

(** Start, open, the partial input "partial text", stop, render: what the
    history holds depends on when React ran the updater of [stopRecording]. *)
Example manual_stop_updater_at_once :
  history
    (run eager_platform
         [Click microphone_granted; SessionOpened;
          SessionMessage (partial_input "partial text");
          Click microphone_granted; Rendered] initial)
  = [ {| user := js "partial text"; translation := [] |} ].
Proof. reflexivity. Qed.

Example manual_stop_updater_at_render :
  history
    (run deferred_platform
         [Click microphone_granted; SessionOpened;
          SessionMessage (partial_input "partial text");
          Click microphone_granted; Rendered] initial)
  = [ {| user := []; translation := [] |} ].
Proof. reflexivity. Qed.

(** A whole episode with three frames: the session is opened and closed, and
    no frame reaches it. *)
Example episode_effects :
  effects
    (run deferred_platform
         [Click microphone_granted; SessionOpened; Rendered;
          AudioProcess [sample_one]; AudioProcess [sample_minus_half];
          AudioProcess [sample_small]; Click microphone_granted] initial)
  = [TrackStop 0; ProcessorDisconnect; ContextClose; SessionClose].
Proof. reflexivity. Qed.

